(** * GodHead Nexus hub: a shallow embedding of [nexus_core.js] and
      [iot_integration.js], and the properties of the hub specification
      checked against it.

    The embedding follows the classes of the source:

    - [GodHeadNexus] (src/godhead_nexus/nexus_core.js): model loading,
      prediction, IoT polling, training contributions, the
      [quantumEncrypt]/[quantumDecrypt] pair and the status query;
    - [IoTIntegration] (iot_integration.js): [processSensorData],
      [adjustPiPegging], [registerDevice], [getAggregatedData] and
      [calculateAverage];

    and, of [AIAppGeneratorStudio] (studio.js), which calls the hub,
    [applyTemplate].

    What the source takes from Node and from its dependencies is modelled
    where its behaviour is fixed (strings, [split], hex and UTF-8 buffers,
    IEEE doubles, the tag check of GCM) and left as a parameter where it is
    not (the AES key stream, the GHASH tag, [JSON.stringify], the predictive
    model, the answers of remote services). *)

From Stdlib Require Import NArith ZArith Lia List Bool.
From Stdlib Require Import Strings.Byte Strings.Ascii Strings.String.
From Stdlib Require Import Floats.PrimFloat.
From Stdlib Require Floats.FloatAxioms Numbers.Cyclic.Int63.Uint63.
From stdpp Require Import base relations strings gmap list.

Set Default Proof Using "Type".
Set Warnings "-inexact-float,-register-all".

(* ================================================================== *)
(** * JavaScript strings and Node buffers *)
(* ================================================================== *)

(** A JavaScript string is a sequence of UTF-16 code units, each a number
    below [2^16]. *)
Definition jsstring : Type := list N.

(** An ASCII string literal of the source, as code units. *)
Definition js (s : string) : jsstring :=
  map N_of_ascii (list_ascii_of_string s).

(** The byte with the given value (values above 255 do not occur). *)
Definition byte_of_N (n : N) : byte :=
  match Byte.of_N n with
  | Some b => b
  | None => x00
  end.

(** ** Hexadecimal: [buf.toString('hex')] and [Buffer.from(s, 'hex')] *)

Definition hex_digit (d : N) : N :=
  if (d <? 10)%N then (48 + d)%N else (87 + d)%N.

Definition hex_of_byte (b : byte) : jsstring :=
  let n := Byte.to_N b in [hex_digit (n / 16); hex_digit (n mod 16)].

(** [buf.toString('hex')]: two lower-case digits per byte. *)
Definition toString_hex (bs : list byte) : jsstring :=
  flat_map hex_of_byte bs.

(** The value of a hexadecimal digit, in either case. Node's decoder
    narrows each code unit to its low byte before it looks the digit up
    ([unhex(static_cast<uint8_t>(c))]), so that a code unit above 255 whose
    low byte is a digit counts as this digit. *)
Definition unhex (c : N) : option N :=
  let c := (c mod 256)%N in
  if (48 <=? c)%N && (c <=? 57)%N then Some (c - 48)%N
  else if (97 <=? c)%N && (c <=? 102)%N then Some (c - 87)%N
  else if (65 <=? c)%N && (c <=? 70)%N then Some (c - 55)%N
  else None.

(** [Buffer.from(s, 'hex')]: pairs of digits are read from the left, and
    decoding stops, without an error, at the first pair that is not two
    hexadecimal digits; a last unpaired character is dropped.
    [decipher.update] reads a ['hex'] input of even length in the same
    way. *)
Fixpoint Buffer_from_hex (s : jsstring) : list byte :=
  match s with
  | a :: b :: rest =>
      match unhex a, unhex b with
      | Some hi, Some lo => byte_of_N (hi * 16 + lo) :: Buffer_from_hex rest
      | _, _ => []
      end
  | _ => []
  end.

(** ** [String.prototype.split] with a one-character separator *)

(** The segments between the occurrences of [sep]; there is always at least
    one segment ([''.split('|')] is [['']]). *)
Fixpoint split (sep : N) (s : jsstring) : list jsstring :=
  match s with
  | [] => [[]]
  | c :: rest =>
      if (c =? sep)%N then [] :: split sep rest
      else match split sep rest with
           | seg :: segs => (c :: seg) :: segs
           | [] => [[c]]
           end
  end.

(** The code unit of the pipe character. *)
Definition pipe : N := 124%N.

(** ** UTF-8: the ['utf8'] input and output encodings of the cipher *)

Definition is_high_surrogate (u : N) : bool :=
  (0xD800 <=? u)%N && (u <? 0xDC00)%N.

Definition is_low_surrogate (u : N) : bool :=
  (0xDC00 <=? u)%N && (u <? 0xE000)%N.

(** U+FFFD, written for whatever cannot be encoded or decoded. *)
Definition replacement : N := 0xFFFD%N.

Definition utf8_of_code_point (cp : N) : list byte :=
  if (cp <? 0x80)%N then [byte_of_N cp]
  else if (cp <? 0x800)%N then
    [byte_of_N (0xC0 + cp / 64); byte_of_N (0x80 + cp mod 64)]
  else if (cp <? 0x10000)%N then
    [byte_of_N (0xE0 + cp / 4096); byte_of_N (0x80 + (cp / 64) mod 64);
     byte_of_N (0x80 + cp mod 64)]
  else
    [byte_of_N (0xF0 + cp / 262144); byte_of_N (0x80 + (cp / 4096) mod 64);
     byte_of_N (0x80 + (cp / 64) mod 64); byte_of_N (0x80 + cp mod 64)].

(** The bytes Node writes for a string under ['utf8']: a surrogate pair is
    one code point of four bytes, and a surrogate that has no partner is
    written as U+FFFD. *)
Fixpoint utf8_encode (s : jsstring) : list byte :=
  match s with
  | [] => []
  | u :: rest =>
      if is_high_surrogate u then
        match rest with
        | lo :: rest' =>
            if is_low_surrogate lo
            then utf8_of_code_point
                   (0x10000 + (u - 0xD800) * 1024 + (lo - 0xDC00))%N
                 ++ utf8_encode rest'
            else utf8_of_code_point replacement ++ utf8_encode rest
        | [] => utf8_of_code_point replacement
        end
      else if is_low_surrogate u then
        utf8_of_code_point replacement ++ utf8_encode rest
      else utf8_of_code_point u ++ utf8_encode rest
  end.

Definition is_continuation (x : N) : bool := (0x80 <=? x)%N && (x <? 0xC0)%N.

(** The second byte a three-byte lead admits (no overlong form, no
    surrogate). *)
Definition second_of_three (x0 x1 : N) : bool :=
  if (x0 =? 0xE0)%N then (0xA0 <=? x1)%N && (x1 <? 0xC0)%N
  else if (x0 =? 0xED)%N then (0x80 <=? x1)%N && (x1 <? 0xA0)%N
  else is_continuation x1.

(** The second byte a four-byte lead admits (no overlong form, nothing
    above U+10FFFF). *)
Definition second_of_four (x0 x1 : N) : bool :=
  if (x0 =? 0xF0)%N then (0x90 <=? x1)%N && (x1 <? 0xC0)%N
  else if (x0 =? 0xF4)%N then (0x80 <=? x1)%N && (x1 <? 0x90)%N
  else is_continuation x1.

(** The code units of a code point: itself, or a surrogate pair. *)
Definition code_units_of (cp : N) : jsstring :=
  if (cp <? 0x10000)%N then [cp]
  else [(0xD800 + (cp - 0x10000) / 1024)%N;
        (0xDC00 + (cp - 0x10000) mod 1024)%N].

(** The string Node builds from bytes under ['utf8']: a sequence that is
    not UTF-8 becomes U+FFFD and decoding resumes after its well-formed
    prefix. *)
Fixpoint utf8_decode (bs : list byte) : jsstring :=
  match bs with
  | [] => []
  | b0 :: r0 =>
      let x0 := Byte.to_N b0 in
      if (x0 <? 0x80)%N then x0 :: utf8_decode r0
      else if (0xC2 <=? x0)%N && (x0 <? 0xE0)%N then
        match r0 with
        | b1 :: r1 =>
            let x1 := Byte.to_N b1 in
            if is_continuation x1
            then ((x0 - 0xC0) * 64 + (x1 - 0x80))%N :: utf8_decode r1
            else replacement :: utf8_decode r0
        | [] => [replacement]
        end
      else if (0xE0 <=? x0)%N && (x0 <? 0xF0)%N then
        match r0 with
        | b1 :: r1 =>
            let x1 := Byte.to_N b1 in
            if second_of_three x0 x1 then
              match r1 with
              | b2 :: r2 =>
                  let x2 := Byte.to_N b2 in
                  if is_continuation x2
                  then ((x0 - 0xE0) * 4096 + (x1 - 0x80) * 64
                        + (x2 - 0x80))%N :: utf8_decode r2
                  else replacement :: utf8_decode r1
              | [] => [replacement]
              end
            else replacement :: utf8_decode r0
        | [] => [replacement]
        end
      else if (0xF0 <=? x0)%N && (x0 <? 0xF5)%N then
        match r0 with
        | b1 :: r1 =>
            let x1 := Byte.to_N b1 in
            if second_of_four x0 x1 then
              match r1 with
              | b2 :: r2 =>
                  let x2 := Byte.to_N b2 in
                  if is_continuation x2 then
                    match r2 with
                    | b3 :: r3 =>
                        let x3 := Byte.to_N b3 in
                        if is_continuation x3
                        then code_units_of
                               ((x0 - 0xF0) * 262144 + (x1 - 0x80) * 4096
                                + (x2 - 0x80) * 64 + (x3 - 0x80))%N
                             ++ utf8_decode r3
                        else replacement :: utf8_decode r2
                    | [] => [replacement]
                    end
                  else replacement :: utf8_decode r1
              | [] => [replacement]
              end
            else replacement :: utf8_decode r0
        | [] => [replacement]
        end
      else replacement :: utf8_decode r0
  end.

(** A string is well formed when its code units are below [2^16] and every
    surrogate is half of a pair: a high surrogate followed by a low one. *)
Fixpoint well_formed (s : jsstring) : bool :=
  match s with
  | [] => true
  | u :: rest =>
      if is_high_surrogate u then
        match rest with
        | lo :: rest' => is_low_surrogate lo && well_formed rest'
        | [] => false
        end
      else negb (is_low_surrogate u) && (u <? 0x10000)%N && well_formed rest
  end.

(* ================================================================== *)
(** * Values, errors and what the platform supplies *)
(* ================================================================== *)

(** JavaScript numbers are IEEE 754 doubles: Rocq's primitive [float]. *)

(** The values the hub stores and passes on. *)
Inductive JsValue : Type :=
| JsUndefined
| JsNull
| JsBool (b : bool)
| JsNumber (x : float)
| JsString (s : jsstring)
| JsObject (fields : list (string * JsValue)).

(** A number is falsy when it is [0], [-0] or [NaN]. *)
Definition falsy_number (x : float) : bool :=
  (x =? 0)%float || PrimFloat.is_nan x.

Definition truthy (v : JsValue) : bool :=
  match v with
  | JsUndefined | JsNull => false
  | JsBool b => b
  | JsNumber x => negb (falsy_number x)
  | JsString s => negb (bool_decide (s = []))
  | JsObject _ => true
  end.

(** [a || b] on values. *)
Definition js_or (a b : JsValue) : JsValue := if truthy a then a else b.

(** A sensor payload: an object whose fields are numbers. A field that is
    absent reads as [undefined]. *)
Abbreviation Reading := (gmap string float).

(** [data.field || dflt] for a numeric field. *)
Definition field_or (data : Reading) (field : string) (dflt : float) : float :=
  match data !! field with
  | Some v => if falsy_number v then dflt else v
  | None => dflt
  end.

(** [data.field > bound]: [undefined] converts to [NaN], which compares
    false. *)
Definition field_gt (data : Reading) (field : string) (bound : float) : bool :=
  match data !! field with
  | Some v => (bound <? v)%float
  | None => false
  end.

(** The payload as a value, for [JSON.stringify] and for object literals
    that hold it. *)
Definition reading_value (data : Reading) : JsValue :=
  JsObject (prod_map id JsNumber <$> map_to_list data).

(** The errors the modelled code can meet. *)
Inductive JsError : Type :=
| ERR_INVALID_ARG_TYPE
    (* TypeError: Buffer.from(undefined, 'hex'), cipher.update(undefined) *)
| ERR_INVALID_AUTH_TAG (len : nat)
    (* TypeError: Invalid authentication tag length: len *)
| ERR_INVALID_ARG_VALUE
    (* TypeError: the 'hex' input of update has an odd length *)
| ERR_UNABLE_TO_AUTHENTICATE
    (* Error: Unsupported state or unable to authenticate data *)
| ERR_NULL_PROPERTY (property : string)
    (* TypeError: Cannot read properties of null (reading 'property') *)
| ERR_EXTERNAL (name message : string).
    (* the error object a library or a remote service failed with *)

(** The [name] of the error object. *)
Definition error_name (e : JsError) : string :=
  match e with
  | ERR_INVALID_ARG_TYPE | ERR_INVALID_ARG_VALUE | ERR_NULL_PROPERTY _
  | ERR_INVALID_AUTH_TAG _ => "TypeError"
  | ERR_UNABLE_TO_AUTHENTICATE => "Error"
  | ERR_EXTERNAL name _ => name
  end.

(** How a synchronous call completes. *)
Inductive Result (A : Type) : Type :=
| Ok (a : A)
| Thrown (e : JsError).
Arguments Ok {A} a.
Arguments Thrown {A} e.

(** What Node and the libraries compute and the source only calls:

    - [evp_keystream password i]: byte [i] of the AES-256 counter-mode key
      stream of [crypto.createCipher('aes-256-gcm', password)], whose key and
      IV are both derived from the password (no salt, no nonce);
    - [gcm_tag password ct]: the 128-bit GCM tag of ciphertext [ct] under the
      same key and IV;
    - [JSON_stringify v]: the text of a value that has one. [undefined] has
      none ([JSON.stringify(undefined)] is [undefined]): the methods that
      may be handed it treat it apart. *)
Class NodeRuntime : Type := {
  evp_keystream : jsstring -> nat -> byte;
  gcm_tag : jsstring -> list byte -> N;
  JSON_stringify : JsValue -> jsstring;
}.

(** A runtime to evaluate the definitions on: a key stream and a tag that
    depend on the password and the data in a simple way. *)
Definition sum_bytes (bs : list byte) : N :=
  fold_right (fun b acc => (Byte.to_N b + 3 * acc)%N) 1%N bs.

Definition sample_runtime : NodeRuntime := {|
  evp_keystream password i :=
    byte_of_N ((sum_bytes (utf8_encode password) + 7 * N.of_nat i) mod 256);
  gcm_tag password ct :=
    (sum_bytes (utf8_encode password) * 0x9E3779B97F4A7C15F39CC0605CEDC835
     + sum_bytes ct * 0xC2B2AE3D27D4EB4F165667B19E3779F9 + 11)%N;
  JSON_stringify v :=
    match v with
    | JsObject fields => js "{" ++ flat_map (fun f => js (fst f)) fields ++ js "}"
    | _ => js "null"
    end;
|}.

Definition xor_byte (a b : byte) : byte :=
  let '(a0, (a1, (a2, (a3, (a4, (a5, (a6, a7))))))) := Byte.to_bits a in
  let '(b0, (b1, (b2, (b3, (b4, (b5, (b6, b7))))))) := Byte.to_bits b in
  Byte.of_bits
    (xorb a0 b0, (xorb a1 b1, (xorb a2 b2, (xorb a3 b3,
     (xorb a4 b4, (xorb a5 b5, (xorb a6 b6, xorb a7 b7))))))).

(** Counter mode: byte [i] of the data is xored with byte [i] of the key
    stream, for encryption and decryption alike. *)
Fixpoint ctr_from (stream : nat -> byte) (i : nat) (data : list byte)
  : list byte :=
  match data with
  | [] => []
  | b :: rest => xor_byte b (stream i) :: ctr_from stream (S i) rest
  end.

(** The [n] low bytes of [x], most significant first. *)
Fixpoint be_bytes (n : nat) (x : N) : list byte :=
  match n with
  | O => []
  | S m => be_bytes m (x / 256) ++ [byte_of_N (x mod 256)]
  end.

Fixpoint bytes_eqb (a b : list byte) : bool :=
  match a, b with
  | [], [] => true
  | x :: a', y :: b' => Byte.eqb x y && bytes_eqb a' b'
  | _, _ => false
  end.

(** The tag lengths [decipher.setAuthTag] accepts in GCM mode. *)
Definition valid_gcm_tag_length (n : nat) : bool :=
  (n =? 4)%nat || (n =? 8)%nat || ((12 <=? n)%nat && (n <=? 16)%nat).

(* ================================================================== *)
(** * [quantumEncrypt] and [quantumDecrypt] *)
(* ================================================================== *)

Section SecureStore.
Context `{NodeRuntime}.

(** [cipher.update(data, ...)] followed by [cipher.final(...)], as bytes:
    GCM is a stream mode, so [final] adds nothing. *)
Definition gcm_crypt (password : jsstring) (data : list byte) : list byte :=
  ctr_from (evp_keystream password) 0 data.

(** [cipher.getAuthTag()]: 16 bytes. *)
Definition getAuthTag (password : jsstring) (ct : list byte) : list byte :=
  be_bytes 16 (gcm_tag password ct).

(** [quantumEncrypt(data)] of [GodHeadNexus] (nexus_core.js, lines 85-90)
    and, with the same body, of [IoTIntegration]; [quantumKey] is
    [this.quantumKey]:
<<
    const cipher = crypto.createCipher('aes-256-gcm', this.quantumKey);
    let encrypted = cipher.update(data, 'utf8', 'hex');
    encrypted += cipher.final('hex');
    return encrypted + '|' + cipher.getAuthTag().toString('hex');
>> *)
Definition quantumEncrypt (quantumKey data : jsstring) : jsstring :=
  let ct := gcm_crypt quantumKey (utf8_encode data) in
  let encrypted := toString_hex ct in
  encrypted ++ js "|" ++ toString_hex (getAuthTag quantumKey ct).

(** The body of [quantumDecrypt] after the destructuring, on the segments
    [data] and [tag] (nexus_core.js, lines 95-99):
<<
    const decipher = crypto.createDecipher('aes-256-gcm', this.quantumKey);
    decipher.setAuthTag(Buffer.from(tag, 'hex'));
    let decrypted = decipher.update(data, 'hex', 'utf8');
    decrypted += decipher.final('utf8');
    return decrypted;
>>
    [setAuthTag] refuses a tag whose length GCM does not admit; [update]
    refuses a ['hex'] input of odd length, and decrypts; [final] compares
    the tag it was given with as many leading bytes of the tag it computes,
    and throws when they differ, so that nothing is returned. *)
Definition decipher (quantumKey data tag : jsstring) : Result jsstring :=
  let tagBuffer := Buffer_from_hex tag in
  if negb (valid_gcm_tag_length (length tagBuffer))
  then Thrown (ERR_INVALID_AUTH_TAG (length tagBuffer))
  else if Nat.odd (length data) then Thrown ERR_INVALID_ARG_VALUE
  else
    let ct := Buffer_from_hex data in
    let decrypted := gcm_crypt quantumKey ct in
    if bytes_eqb (take (length tagBuffer) (getAuthTag quantumKey ct)) tagBuffer
    then Ok (utf8_decode decrypted)
    else Thrown ERR_UNABLE_TO_AUTHENTICATE.

(** [quantumDecrypt(encryptedData)] (nexus_core.js, lines 93-100).
    [const [data, tag] = encryptedData.split('|')] takes the first two
    segments and ignores the others; [tag] is [undefined] when there is no
    pipe, and [Buffer.from] throws on it. *)
Definition quantumDecrypt (quantumKey encryptedData : jsstring)
  : Result jsstring :=
  let parts := split pipe encryptedData in
  match parts !! 1%nat with
  | None => Thrown ERR_INVALID_ARG_TYPE
  | Some tag => decipher quantumKey (nth 0 parts []) tag
  end.

End SecureStore.

(* ================================================================== *)
(** * Asynchronous methods *)
(* ================================================================== *)

(** The predictive model [tf.loadLayersModel] resolves to:
    [model.predict(tf.tensor2d([marketData])).dataSync()[0]], which throws
    when the model refuses the input. *)
Record Model : Type := { predict : list float -> Result float }.

(** A promise that has settled. *)
Inductive Settled (A : Type) : Type :=
| Fulfilled (a : A)
| Rejected (e : JsError).
Arguments Fulfilled {A} a.
Arguments Rejected {A} e.

(** The calls to remote services that the hub awaits, each with the type of
    what it resolves to: [tf.loadLayersModel(url)],
    [Promise.all(urls.map(axios.get))] (the [data.value] of each response)
    and [ipfs.add(content)] (the [cid] of the result). *)
Inductive Request : Type -> Type :=
| tf_loadLayersModel (url : string) : Request Model
| axios_get_all (urls : list string) : Request (list float)
| ipfs_add (content : jsstring) : Request string.

(** An [async] method over an object of state [S]: it reads and updates the
    fields of the object, and is suspended at each [await] of a remote call
    until that call settles. What runs between two suspensions runs without
    interruption; the [await] of a method of the program itself goes on as
    soon as that method has ended. *)
Inductive Task (S R : Type) : Type :=
| Return (r : R)
| Throw (e : JsError)
| Get (k : S -> Task S R)
| Modify (f : S -> S) (k : Task S R)
| Await {X : Type} (q : Request X) (k : Settled X -> Task S R).
Arguments Return {S R} r.
Arguments Throw {S R} e.
Arguments Get {S R} k.
Arguments Modify {S R} f k.
Arguments Await {S R X} q k.

Fixpoint bind {S A B : Type} (t : Task S A) (f : A -> Task S B) : Task S B :=
  match t with
  | Return a => f a
  | Throw e => Throw e
  | Get k => Get (fun s => bind (k s) f)
  | Modify g k => Modify g (bind k f)
  | Await q k => Await q (fun a => bind (k a) f)
  end.

#[export] Instance task_ret {S} : MRet (Task S) := fun _ a => Return a.
#[export] Instance task_bind {S} : MBind (Task S) := fun _ _ f t => bind t f.

(** [try { t } catch (error) { handler error }]. *)
Fixpoint try_catch {S R : Type} (t : Task S R) (handler : JsError -> Task S R)
  : Task S R :=
  match t with
  | Return r => Return r
  | Throw e => handler e
  | Get k => Get (fun s => try_catch (k s) handler)
  | Modify g k => Modify g (try_catch k handler)
  | Await q k => Await q (fun a => try_catch (k a) handler)
  end.

Definition get {S} : Task S S := Get Return.
Definition modify {S} (f : S -> S) : Task S unit := Modify f (Return tt).

(** [await q]: the value the call resolves to, or its rejection thrown. *)
Definition await {S X} (q : Request X) : Task S X :=
  Await q (fun a => match a with
                    | Fulfilled x => Return x
                    | Rejected e => Throw e
                    end).

Definition of_result {S A} (r : Result A) : Task S A :=
  match r with
  | Ok a => Return a
  | Thrown e => Throw e
  end.

(** A method of a member object, run on the object that holds it. *)
Fixpoint on_member {S T R : Type} (read : S -> T) (write : T -> S -> S)
  (t : Task T R) : Task S R :=
  match t with
  | Return r => Return r
  | Throw e => Throw e
  | Get k => Get (fun s => on_member read write (k (read s)))
  | Modify g k =>
      Modify (fun s => write (g (read s)) s) (on_member read write k)
  | Await q k => Await q (fun a => on_member read write (k a))
  end.

(** ** Running a method *)

(** How an asynchronous call ends: its promise is fulfilled or rejected, or
    stays pending for ever because a remote call never settles. *)
Inductive Outcome (A : Type) : Type :=
| Resolved (a : A)
| Failed (e : JsError)
| Pending.
Arguments Resolved {A} a.
Arguments Failed {A} e.
Arguments Pending {A}.

(** A remote call as a service receives it. *)
Inductive RemoteCall : Type :=
| loadLayersModel_called (url : string)
| axios_get_called (urls : list string)
| ipfs_add_called (content : jsstring).

Definition remote_call {X} (q : Request X) : RemoteCall :=
  match q with
  | tf_loadLayersModel url => loadLayersModel_called url
  | axios_get_all urls => axios_get_called urls
  | ipfs_add content => ipfs_add_called content
  end.

(** The remote services: what each kind of call will settle to, call after
    call (a call beyond the end of its list never settles), and the calls
    received so far, oldest first. *)
Record World : Type := {
  loader : list (Settled Model);
  sensors_api : list (Settled (list float));
  storage : list (Settled string);
  received : list RemoteCall;
}.

(** The next answer to a call of the kind of [q], and the answers left. *)
Definition next_answer {X} (q : Request X) (w : World)
  : option (Settled X) * World :=
  match q in Request X return option (Settled X) * World with
  | tf_loadLayersModel _ =>
      (head (loader w),
       {| loader := tail (loader w); sensors_api := sensors_api w;
          storage := storage w; received := received w |})
  | axios_get_all _ =>
      (head (sensors_api w),
       {| loader := loader w; sensors_api := tail (sensors_api w);
          storage := storage w; received := received w |})
  | ipfs_add _ =>
      (head (storage w),
       {| loader := loader w; sensors_api := sensors_api w;
          storage := tail (storage w); received := received w |})
  end.

(** The service receives the call and answers it, if it ever does. *)
Definition serve {X} (q : Request X) (w : World)
  : option (Settled X) * World :=
  let '(a, w') := next_answer q w in
  (a, {| loader := loader w'; sensors_api := sensors_api w';
         storage := storage w';
         received := received w' ++ [remote_call q] |}).

(** A call run on its own, from start to end. *)
Fixpoint run {S R : Type} (t : Task S R) (w : World) (s : S)
  : World * S * Outcome R :=
  match t with
  | Return r => (w, s, Resolved r)
  | Throw e => (w, s, Failed e)
  | Get k => run (k s) w s
  | Modify f k => run k w (f s)
  | Await q k =>
      match serve q w with
      | (Some a, w') => run (k a) w' s
      | (None, w') => (w', s, Pending)
      end
  end.

(** The part of a call that runs at once, up to its first [await]: what is
    left is finished or suspended on a remote call. *)
Fixpoint start {S R : Type} (t : Task S R) (s : S) : S * Task S R :=
  match t with
  | Get k => start (k s) s
  | Modify f k => start k (f s)
  | _ => (s, t)
  end.

(** Calls issued one after the other with nothing settling in between. *)
Fixpoint issue {S R : Type} (calls : list (Task S R)) (s : S)
  : S * list (Task S R) :=
  match calls with
  | [] => (s, [])
  | t :: rest =>
      let '(s1, t1) := start t s in
      let '(s2, ts) := issue rest s1 in
      (s2, t1 :: ts)
  end.

(** Whether a call is suspended on a model load. *)
Definition awaits_load {S R : Type} (t : Task S R) : bool :=
  match t with
  | Await (tf_loadLayersModel _) _ => true
  | _ => false
  end.

(** The model loads in flight among suspended calls. *)
Definition loads_in_flight {S R : Type} (ts : list (Task S R)) : nat :=
  length (filter (fun t => awaits_load t = true) ts).

(** A call suspended on a model load runs on, once the load has settled
    with [a], to its next [await] of a remote call (with the coarseness of
    [run]: nothing else runs in between). *)
Definition settle_load {S R : Type} (a : Settled Model) (t : Task S R) (s : S)
  : S * Task S R :=
  match t with
  | Await q k =>
      match q in Request X return (Settled X -> Task S R) -> S * Task S R with
      | tf_loadLayersModel _ => fun k => start (k a) s
      | _ => fun _ => (s, t)
      end k
  | _ => (s, t)
  end.

(** [keeps I t]: no update that [t] makes to the state breaks [I]. *)
Fixpoint keeps {S R : Type} (I : S -> Prop) (t : Task S R) : Prop :=
  match t with
  | Return _ | Throw _ => True
  | Get k => forall s, keeps I (k s)
  | Modify f k => (forall s, I s -> I (f s)) /\ keeps I k
  | Await q k => forall a, keeps I (k a)
  end.

(* ================================================================== *)
(** * [GodHeadNexus] *)
(* ================================================================== *)

(** The events of the hub, with their payloads. *)
Inductive Event : Type :=
| modelLoaded
| predictionMade (adjustment : float) (marketData : list float)
| iotDataUpdated (cache : Reading)
| trainingTriggered (cid : string) (data : JsValue)
| peggingAdjusted (newPeg : float) (iotData : Reading).

(** A line of the console, by the text of its template. *)
Inductive ConsoleLine : Type :=
| console_log (text : string)
| console_error (text : string) (e : JsError).

(** The fields of a [GodHeadNexus], and what it has emitted and printed so
    far, oldest first. [lastPrediction] is the property [getNexusStatus]
    reads; the constructor does not define it. *)
Record GodHeadNexus : Type := {
  quantumKey : jsstring;
  model : option Model;
  iotDataCache : Reading;
  lastPrediction : JsValue;
  emitted : list Event;
  console : list ConsoleLine;
}.

Definition set_model (m : option Model) (n : GodHeadNexus) : GodHeadNexus :=
  {| quantumKey := quantumKey n; model := m; iotDataCache := iotDataCache n;
     lastPrediction := lastPrediction n; emitted := emitted n;
     console := console n |}.

Definition set_iotDataCache (c : Reading) (n : GodHeadNexus) : GodHeadNexus :=
  {| quantumKey := quantumKey n; model := model n; iotDataCache := c;
     lastPrediction := lastPrediction n; emitted := emitted n;
     console := console n |}.

Definition record_event (ev : Event) (n : GodHeadNexus) : GodHeadNexus :=
  {| quantumKey := quantumKey n; model := model n;
     iotDataCache := iotDataCache n; lastPrediction := lastPrediction n;
     emitted := emitted n ++ [ev]; console := console n |}.

Definition print (line : ConsoleLine) (n : GodHeadNexus) : GodHeadNexus :=
  {| quantumKey := quantumKey n; model := model n;
     iotDataCache := iotDataCache n; lastPrediction := lastPrediction n;
     emitted := emitted n; console := console n ++ [line] |}.

(** The fields the constructor sets (nexus_core.js, lines 9-17), before its
    call of [loadModel]. *)
Definition new_GodHeadNexus (quantumKey : jsstring) : GodHeadNexus :=
  {| quantumKey := quantumKey; model := None; iotDataCache := ∅;
     lastPrediction := JsUndefined; emitted := []; console := [] |}.

(** [handleMarketAlert(data)]. *)
Definition handleMarketAlert (adjustment : float) (n : GodHeadNexus)
  : GodHeadNexus :=
  if (0.01 <? PrimFloat.abs adjustment)%float
  then print (console_log
                "ALERT: Significant PI adjustment needed. Notify ecosystem.") n
  else n.

(** [adjustPegging(iotData)]: the adjustment is computed and printed. *)
Definition adjustPegging (iotData : Reading) (n : GodHeadNexus)
  : GodHeadNexus :=
  let energyPrice := field_or iotData "energy_price" 0 in
  let adjustment := (energyPrice * 0.0001)%float in
  print (console_log "Pegging adjusted by IoT: ${adjustment}") n.

(** [this.emit(event, payload)] with the listeners of
    [setupEventListeners], which run before [emit] returns. *)
Definition emit (ev : Event) (n : GodHeadNexus) : GodHeadNexus :=
  let n := record_event ev n in
  match ev with
  | modelLoaded => print (console_log "Nexus ready for predictions.") n
  | predictionMade adjustment _ => handleMarketAlert adjustment n
  | iotDataUpdated data => adjustPegging data n
  | trainingTriggered _ _ | peggingAdjusted _ _ => n
  end.

Definition modelUrl : string :=
  "https://ipfs.io/ipfs/QmYourModelCID/model.json".

Section Hub.
Context `{NodeRuntime}.

(** [async loadModel()] (nexus_core.js, lines 20-30): a failure of the load
    is caught and printed, and the promise is fulfilled either way.
<<
    try {
        ...
        this.model = await tf.loadLayersModel(modelUrl);
        console.log('GodHead Nexus AI model loaded from IPFS.');
        this.emit('modelLoaded');
    } catch (error) {
        console.error('Failed to load model:', error);
    }
>> *)
Definition loadModel : Task GodHeadNexus unit :=
  try_catch
    (m ← await (tf_loadLayersModel modelUrl);
     modify (set_model (Some m));;
     modify (print (console_log "GodHead Nexus AI model loaded from IPFS."));;
     modify (emit modelLoaded))
    (fun error => modify (print (console_error "Failed to load model:" error))).

(** [async predictAdjustment(marketData)] (nexus_core.js, lines 33-41).
<<
    if (!this.model) await this.loadModel();
    const input = tf.tensor2d([marketData]);
    const prediction = this.model.predict(input);
    const adjustment = prediction.dataSync()[0];
    console.log(`Nexus Prediction: Adjust PI by ${adjustment} ...`);
    this.emit('predictionMade', { adjustment, marketData });
    return adjustment;
>>
    When the load has failed, [this.model] is still [null] and reading
    [predict] from it throws. *)
Definition predictAdjustment (marketData : list float)
  : Task GodHeadNexus float :=
  this ← get;
  (if model this is None then loadModel else mret tt);;
  this ← get;
  match model this with
  | None => Throw (ERR_NULL_PROPERTY "predict")
  | Some m =>
      adjustment ← of_result (predict m marketData);
      modify (print (console_log
        "Nexus Prediction: Adjust PI by ${adjustment} for peg $314,159"));;
      modify (emit (predictionMade adjustment marketData));;
      mret adjustment
  end.

(** [acc[id] = value] for a number [value]. On the name [__proto__] the
    assignment reaches the setter that every object inherits, which ignores
    a number: the object gets no property. *)
Definition assign (id : string) (value : float) (acc : Reading) : Reading :=
  if bool_decide (id = "__proto__") then acc else <[id := value]> acc.

(** [async fetchIoTSensors(sensorIds)] (nexus_core.js, lines 44-60): the
    cache is replaced by the values fetched, one per sensor; when a request
    fails, the failure is printed and [{}] is returned. For an empty list
    there is no request, and [Promise.all([])] resolves with no value.
<<
    const responses = await Promise.all(
        sensorIds.map(id => axios.get(`https://iot-api.pi-nexus.com/${id}`)));
    this.iotDataCache = responses.reduce((acc, res, idx) => {
        acc[sensorIds[idx]] = res.data.value;
        return acc;
    }, {});
>> *)
Definition fetchIoTSensors (sensorIds : list string)
  : Task GodHeadNexus Reading :=
  try_catch
    (responses ←
       match sensorIds with
       | [] => mret []
       | _ :: _ =>
           await (axios_get_all
             (map (fun id => "https://iot-api.pi-nexus.com/" +:+ id)
                sensorIds))
       end;
     let cache : Reading :=
       foldl (fun acc '(id, value) => assign id value acc) ∅
             (zip sensorIds responses) in
     modify (set_iotDataCache cache);;
     modify (print (console_log "IoT data fetched:"));;
     modify (emit (iotDataUpdated cache));;
     mret cache)
    (fun error =>
       modify (print (console_error "IoT fetch failed:" error));;
       mret ∅).

(** [async triggerFederatedTraining(contributionData)] (nexus_core.js,
    lines 63-74); the result is the [cid] of the object returned.
<<
    const encryptedData = this.quantumEncrypt(JSON.stringify(contributionData));
    const { cid } = await this.ipfs.add(encryptedData);
    console.log(`Federated training data stored on IPFS: ${cid}`);
    this.emit('trainingTriggered', { cid, data: contributionData });
    return { cid };
>>
    Nothing catches a rejection of [ipfs.add]. For [undefined],
    [JSON.stringify] returns [undefined] and [cipher.update] throws a
    [TypeError] on it, before anything is sent. *)
Definition triggerFederatedTraining (contributionData : JsValue)
  : Task GodHeadNexus string :=
  this ← get;
  match contributionData with
  | JsUndefined => Throw ERR_INVALID_ARG_TYPE
  | _ =>
      let encryptedData :=
        quantumEncrypt (quantumKey this) (JSON_stringify contributionData) in
      cid ← await (ipfs_add encryptedData);
      modify (print (console_log
        "Federated training data stored on IPFS: ${cid}"));;
      modify (emit (trainingTriggered cid contributionData));;
      mret cid
  end.

(** The default of the parameter of [fetchIoTSensors]. *)
Definition default_sensorIds : list string :=
  ["energy_price"; "commodity_index"].

(** [async queryContractOracle(contractAddress, env)]. *)
Definition queryContractOracle : Task GodHeadNexus float :=
  adjustment ← predictAdjustment [314159%float; 1000%float];
  modify (print (console_log "Oracle query result: ${adjustment}"));;
  mret adjustment.

End Hub.

(** [getNexusStatus()] (nexus_core.js, lines 125-131).
<<
    return {
        modelLoaded: !!this.model,
        iotCache: this.iotDataCache,
        lastPrediction: this.lastPrediction || null,
    };
>> *)
Record NexusStatus : Type := {
  status_modelLoaded : bool;
  status_iotCache : Reading;
  status_lastPrediction : JsValue;
}.

Definition getNexusStatus (this : GodHeadNexus) : NexusStatus :=
  {| status_modelLoaded := bool_decide (is_Some (model this));
     status_iotCache := iotDataCache this;
     status_lastPrediction := js_or (lastPrediction this) JsNull |}.

(** [new GodHeadNexus(quantumKey, ipfsConfig)]: the constructor calls
    [this.loadModel()] and does not await it, so that the object comes with
    a load in flight. *)
Definition construct `{NodeRuntime} (quantumKey : jsstring)
  : GodHeadNexus * Task GodHeadNexus unit :=
  start loadModel (new_GodHeadNexus quantumKey).

(** The operations of the hub, for sequences of calls. *)
Inductive HubCall : Type :=
| call_loadModel
| call_predictAdjustment (marketData : list float)
| call_fetchIoTSensors (sensorIds : list string)
| call_triggerFederatedTraining (contributionData : JsValue)
| call_queryContractOracle.

Section HubCalls.
Context `{NodeRuntime}.

(** The method a [HubCall] names. *)
Definition hub_task (c : HubCall) : Task GodHeadNexus unit :=
  match c with
  | call_loadModel => loadModel
  | call_predictAdjustment marketData => predictAdjustment marketData;; mret tt
  | call_fetchIoTSensors sensorIds => fetchIoTSensors sensorIds;; mret tt
  | call_triggerFederatedTraining data =>
      triggerFederatedTraining data;; mret tt
  | call_queryContractOracle => queryContractOracle;; mret tt
  end.

(** A sequence of calls, each run to its end (or left pending) before the
    next. *)
Fixpoint run_calls (calls : list HubCall) (w : World) (this : GodHeadNexus)
  : World * GodHeadNexus :=
  match calls with
  | [] => (w, this)
  | c :: rest =>
      let '(w', this', _) := run (hub_task c) w this in
      run_calls rest w' this'
  end.

(** The hub with the calls under way on it. A step is the call of a method,
    which runs to its first [await] of a remote call, or the settling of a
    remote call that one of the calls is suspended on, which runs that call
    to its next [await] of a remote call. The calls overlap at the remote
    calls, in any order; this is coarser than JavaScript, where a call that
    awaits a method of the hub is resumed some microtasks after this method
    has ended, and other calls may run in between. *)
Inductive hub_step
  : GodHeadNexus * list (Task GodHeadNexus unit) ->
    GodHeadNexus * list (Task GodHeadNexus unit) -> Prop :=
| step_call c this calls :
    hub_step (this, calls)
      ((start (hub_task c) this).1, calls ++ [(start (hub_task c) this).2])
| step_settle X (q : Request X) k (a : Settled X) this before after :
    hub_step (this, before ++ Await q k :: after)
      ((start (k a) this).1, before ++ (start (k a) this).2 :: after).

End HubCalls.

(* ================================================================== *)
(** * [IoTIntegration] *)
(* ================================================================== *)

(** An entry of [this.sensorData]. *)
Record SensorEntry : Type := {
  raw : Reading;
  encrypted : jsstring;
  timestamp : float;
}.

(** The fields of an [IoTIntegration] that the modelled methods use. *)
Record IoTIntegration : Type := {
  nexus : GodHeadNexus;
  iot_quantumKey : jsstring;
  sensorData : gmap string SensorEntry;
}.

Definition set_nexus (n : GodHeadNexus) (this : IoTIntegration)
  : IoTIntegration :=
  {| nexus := n; iot_quantumKey := iot_quantumKey this;
     sensorData := sensorData this |}.

(** [this.sensorData[topic] = entry], for a topic other than [__proto__]
    (on that name the assignment replaces the prototype of the cache and
    adds no entry; the topics of the subscriptions are [pi/sensors/...] and
    [ws/sensor]). *)
Definition set_sensorData (topic : string) (entry : SensorEntry)
  (this : IoTIntegration) : IoTIntegration :=
  {| nexus := nexus this; iot_quantumKey := iot_quantumKey this;
     sensorData := <[topic := entry]> (sensorData this) |}.

Definition new_IoTIntegration (n : GodHeadNexus) (quantumKey : jsstring)
  : IoTIntegration :=
  {| nexus := n; iot_quantumKey := quantumKey; sensorData := ∅ |}.

(** A method of [this.nexus], called from the integration. The console is
    that of the process, kept with the hub. *)
Definition on_nexus {R} (t : Task GodHeadNexus R) : Task IoTIntegration R :=
  on_member nexus set_nexus t.

Definition basePeg : float := 3141590000000%float.

(** The value [adjustPiPegging] computes. *)
Definition newPeg (adjustment : float) : float :=
  (basePeg + adjustment * 1000000)%float.

(** [adjustPiPegging(adjustment, iotData)] (iot_integration.js, lines
    74-81).
<<
    const basePeg = 3141590000000;
    const newPeg = basePeg + (adjustment * 1000000);
    console.log(`New dynamic PI peg: ${newPeg} influenced by IoT data:`, iotData);
    this.nexus.emit('peggingAdjusted', { newPeg, iotData });
>> *)
Definition adjustPiPegging (adjustment : float) (iotData : Reading)
  : Task IoTIntegration unit :=
  on_nexus (modify (print (console_log
    "New dynamic PI peg: ${newPeg} influenced by IoT data:")));;
  on_nexus (modify (emit (peggingAdjusted (newPeg adjustment) iotData))).

(** The vector [processSensorData] has the model predict from; [now] is
    what [Date.now()] returns. *)
Definition features (now : float) (data : Reading) : list float :=
  [field_or data "price" 314159;
   field_or data "volume" 1000;
   field_or data "timestamp" now;
   field_or data "energyPrice" 0;
   field_or data "commodityIndex" 0].

(** The object literal [{ sensorData: data }]. *)
Definition contribution_of (data : Reading) : JsValue :=
  JsObject [("sensorData", reading_value data)].

Section Integration.
Context `{NodeRuntime}.

(** [async processSensorData(topic, data)] (iot_integration.js, lines
    46-71). [now0] and [now1] are what the two calls of [Date.now()] return.
<<
    const encryptedData = this.quantumEncrypt(JSON.stringify(data));
    this.sensorData[topic] = { raw: data, encrypted: encryptedData,
                               timestamp: Date.now() };
    const adjustment = await this.nexus.predictAdjustment([...]);
    this.adjustPiPegging(adjustment, data);
    if (data.energyPrice > 50) {
        await this.nexus.triggerFederatedTraining({ sensorData: data });
    }
    console.log(`IoT data processed. PI pegging adjusted by ${adjustment}`);
>> *)
Definition processSensorData (now0 now1 : float) (topic : string)
  (data : Reading) : Task IoTIntegration unit :=
  this ← get;
  let encryptedData :=
    quantumEncrypt (iot_quantumKey this) (JSON_stringify (reading_value data))
  in
  modify (set_sensorData topic
            {| raw := data; encrypted := encryptedData; timestamp := now0 |});;
  adjustment ← on_nexus (predictAdjustment (features now1 data));
  adjustPiPegging adjustment data;;
  (if field_gt data "energyPrice" 50
   then on_nexus (triggerFederatedTraining (contribution_of data));;
        mret tt
   else mret tt);;
  on_nexus (modify (print (console_log
    "IoT data processed. PI pegging adjusted by ${adjustment}"))).

End Integration.

(** A sequence of adjustments applied through [adjustPiPegging], which
    awaits nothing: each call runs to its end at once. *)
Fixpoint adjust_all (adjustments : list (float * Reading))
  (this : IoTIntegration) : IoTIntegration :=
  match adjustments with
  | [] => this
  | (adjustment, iotData) :: rest =>
      adjust_all rest (fst (start (adjustPiPegging adjustment iotData) this))
  end.

(** The pegs published so far, oldest first. *)
Definition published_pegs (this : IoTIntegration) : list float :=
  omap (fun ev => match ev with
                  | peggingAdjusted p _ => Some p
                  | _ => None
                  end) (emitted (nexus this)).

(** The peg value after the last adjustment: the one published last. *)
Definition current_value (this : IoTIntegration) : option float :=
  last (published_pegs this).

(** [min <= x <= max] on doubles. *)
Definition within (min max x : float) : bool :=
  (min <=? x)%float && (x <=? max)%float.

(** ** The aggregate of the readings *)

(** The number [n] as a double ([values.length] in a division). *)
Definition float_of_nat (n : nat) : float :=
  PrimFloat.of_uint63 (Uint63.of_Z (Z.of_nat n)).

(** The names that every object inherits from [Object.prototype]: read
    from an object that has no property of its own under the name, such a
    name gives a function or an object, not [undefined]. *)
Definition Object_prototype_names : list string :=
  ["constructor"; "__defineGetter__"; "__defineSetter__"; "hasOwnProperty";
   "__lookupGetter__"; "__lookupSetter__"; "isPrototypeOf";
   "propertyIsEnumerable"; "toString"; "valueOf"; "__proto__";
   "toLocaleString"].

Definition inherited (name : string) : bool :=
  bool_decide (name ∈ Object_prototype_names).

(** What [d.raw[field]] reads, when it is truthy: a number of the reading,
    or what the reading inherits under the name. *)
Inductive FieldValue : Type :=
| number_value (v : float)
| inherited_value.

(** [d.raw[field]] when it passes [filter(v => v)]: a number that is not
    [0] or [NaN], or an inherited function or object. *)
Definition truthy_field (field : string) (d : SensorEntry)
  : option FieldValue :=
  match raw d !! field with
  | Some v => if falsy_number v then None else Some (number_value v)
  | None => if inherited field then Some inherited_value else None
  end.

(** The values when all of them are numbers. *)
Fixpoint numbers (values : list FieldValue) : option (list float) :=
  match values with
  | [] => Some []
  | number_value v :: rest =>
      match numbers rest with
      | Some vs => Some (v :: vs)
      | None => None
      end
  | inherited_value :: _ => None
  end.

(** [calculateAverage(field)] (iot_integration.js, lines 121-124);
    [entries] is [Object.values(this.sensorData)], the entries of the cache
    in the order in which JavaScript enumerates them.
<<
    const values = Object.values(this.sensorData)
                         .map(d => d.raw[field]).filter(v => v);
    return values.length
        ? values.reduce((a, b) => a + b) / values.length : 0;
>>
    When a function or an object is among the values, [+] makes a string of
    the sum (and a lone such value is no number either), so that the
    quotient is [NaN]. *)
Definition calculateAverage (entries : list SensorEntry) (field : string)
  : float :=
  let values := omap (truthy_field field) entries in
  match values with
  | [] => 0%float
  | _ :: _ =>
      match numbers values with
      | Some (first :: others) =>
          (foldl PrimFloat.add first others
           / float_of_nat (length values))%float
      | _ => nan
      end
  end.

(** [getAggregatedData()] (iot_integration.js, lines 112-118), with
    [entries] as in [calculateAverage]. *)
Record AggregatedData : Type := {
  sensorCount : nat;
  latestData : gmap string SensorEntry;
  averageEnergyPrice : float;
}.

Definition getAggregatedData (entries : list SensorEntry)
  (this : IoTIntegration) : AggregatedData :=
  {| sensorCount := size (sensorData this);
     latestData := sensorData this;
     averageEnergyPrice := calculateAverage entries "energyPrice" |}.

(** [Object.values(this.sensorData)] holds the entries of the cache, one
    per topic; the map does not record their order. *)
Definition Object_values (this : IoTIntegration) (entries : list SensorEntry)
  : Prop :=
  entries ≡ₚ (map_to_list (sensorData this)).*2.

(** ** Devices *)

(** The object literal [{ deviceId, sensorType }]. *)
Definition device_of (deviceId sensorType : JsValue) : JsValue :=
  JsObject [("deviceId", deviceId); ("sensorType", sensorType)].

Section Devices.
Context `{NodeRuntime}.

(** [registerDevice(deviceId, sensorType)] (iot_integration.js, lines
    105-109): the call of [triggerFederatedTraining] is not awaited, so the
    method returns with this call under way, suspended on the storage.
<<
    console.log(`Device ${deviceId} registered for ${sensorType} sensors.`);
    this.nexus.triggerFederatedTraining({ deviceId, sensorType });
>> *)
Definition registerDevice (deviceId sensorType : JsValue)
  (this : IoTIntegration) : IoTIntegration * Task IoTIntegration string :=
  start
    (on_nexus (modify (print (console_log
       "Device ${deviceId} registered for ${sensorType} sensors.")));;
     on_nexus (triggerFederatedTraining (device_of deviceId sensorType)))
    this.

End Devices.

(* ================================================================== *)
(** * [AIAppGeneratorStudio]: templates *)
(* ================================================================== *)

(** ** [String.prototype.replace] with a string for pattern *)

Fixpoint starts_with (pat s : jsstring) : bool :=
  match pat, s with
  | [], _ => true
  | p :: pat', c :: s' => (p =? c)%N && starts_with pat' s'
  | _ :: _, [] => false
  end.

(** The first occurrence of [pat] in [s]: what stands before it and what
    stands after it. *)
Fixpoint search (pat s : jsstring) : option (jsstring * jsstring) :=
  if starts_with pat s then Some ([], drop (length pat) s)
  else match s with
       | [] => None
       | c :: s' =>
           match search pat s' with
           | Some (before, after) => Some (c :: before, after)
           | None => None
           end
       end.

Definition dollar : N := 36%N.
Definition ampersand : N := 38%N.
Definition backtick : N := 96%N.
Definition apostrophe : N := 39%N.

(** The text that takes the place of the match: in the replacement,
    [$$] stands for a dollar sign, [$&] for the match, [$`] for what stands
    before the match and [$'] for what stands after it; a pattern that is a
    string captures nothing, so that a dollar sign before any other
    character stands for itself. *)
Fixpoint GetSubstitution (matched before after replacement : jsstring)
  : jsstring :=
  match replacement with
  | [] => []
  | c :: rest =>
      if (c =? dollar)%N then
        match rest with
        | d :: rest' =>
            if (d =? dollar)%N
            then dollar :: GetSubstitution matched before after rest'
            else if (d =? ampersand)%N
            then matched ++ GetSubstitution matched before after rest'
            else if (d =? backtick)%N
            then before ++ GetSubstitution matched before after rest'
            else if (d =? apostrophe)%N
            then after ++ GetSubstitution matched before after rest'
            else dollar :: GetSubstitution matched before after rest
        | [] => [dollar]
        end
      else c :: GetSubstitution matched before after rest
  end.

(** [s.replace(pat, replacement)] for strings [pat] and [replacement]: the
    first occurrence is replaced, and [s] is returned when there is none. *)
Definition String_replace (s pat replacement : jsstring) : jsstring :=
  match search pat s with
  | Some (before, after) =>
      before ++ GetSubstitution pat before after replacement ++ after
  | None => s
  end.

Definition placeholder : jsstring := js "{{GENERATED_CODE}}".

(** [applyTemplate(code, templateName)] of [AIAppGeneratorStudio]
    (studio.js, lines 67-70); [templates] is [this.templates]. A name that
    is not a template reads as [undefined], or as a property that every
    object inherits, and the call of [replace] on it throws a
    [TypeError].
<<
    const template = this.templates[templateName];
    return template.replace('{{GENERATED_CODE}}', code);
>> *)
Definition applyTemplate (templates : gmap string jsstring)
  (code : jsstring) (templateName : string) : Result jsstring :=
  match templates !! templateName with
  | Some template => Ok (String_replace template placeholder code)
  | None => Thrown (ERR_NULL_PROPERTY "replace")
  end.

(* ================================================================== *)
(** * Bytes, hexadecimal digits and [split] *)
(* ================================================================== *)

Ltac Zify.zify_post_hook ::= Z.to_euclidean_division_equations.

(** Decides the comparisons of the goal from the hypotheses, splits on
    those they leave open, and takes the branches chosen. *)
Ltac decide_tests :=
  repeat (match goal with
    | |- context [(?a <? ?b)%N] =>
        first [ rewrite (proj2 (N.ltb_lt a b)) by lia
              | rewrite (proj2 (N.ltb_ge a b)) by lia
              | destruct (N.ltb_spec a b) ]
    | |- context [(?a <=? ?b)%N] =>
        first [ rewrite (proj2 (N.leb_le a b)) by lia
              | rewrite (proj2 (N.leb_gt a b)) by lia
              | destruct (N.leb_spec a b) ]
    | |- context [(?a =? ?b)%N] =>
        first [ rewrite (proj2 (N.eqb_eq a b)) by lia
              | rewrite (proj2 (N.eqb_neq a b)) by lia
              | destruct (N.eqb_spec a b) ]
    end; cbv beta match delta [andb orb negb]).

Lemma to_N_byte_of_N n : (n < 256)%N -> Byte.to_N (byte_of_N n) = n.
Proof.
  intros Hn. unfold byte_of_N. destruct (Byte.of_N n) eqn:E.
  - by apply Byte.to_of_N.
  - apply Byte.of_N_None_iff in E. lia.
Qed.

Lemma byte_of_N_to_N b : byte_of_N (Byte.to_N b) = b.
Proof. unfold byte_of_N. by rewrite Byte.of_to_N. Qed.

Lemma to_N_lt_256 b : (Byte.to_N b < 256)%N.
Proof. pose proof (Byte.to_N_bounded b). lia. Qed.

Lemma unhex_hex_digit d : (d < 16)%N -> unhex (hex_digit d) = Some d.
Proof.
  intros Hd. unfold unhex, hex_digit. cbv zeta.
  destruct (N.ltb_spec d 10); rewrite N.mod_small by lia;
    decide_tests; simpl; f_equal; lia.
Qed.

Lemma hex_digit_not_pipe d : (d < 16)%N -> hex_digit d <> pipe.
Proof. unfold hex_digit, pipe. intros Hd. decide_tests; lia. Qed.

Lemma Buffer_from_hex_byte b rest :
  Buffer_from_hex (hex_of_byte b ++ rest) = b :: Buffer_from_hex rest.
Proof.
  pose proof (to_N_lt_256 b) as Hb.
  unfold hex_of_byte. cbn [app Buffer_from_hex].
  rewrite !unhex_hex_digit by lia.
  replace (Byte.to_N b / 16 * 16 + Byte.to_N b mod 16)%N with (Byte.to_N b)
    by lia.
  by rewrite byte_of_N_to_N.
Qed.

(** Decoding what [toString('hex')] wrote gives the bytes back, and goes on
    with what follows. *)
Lemma Buffer_from_hex_app bs rest :
  Buffer_from_hex (toString_hex bs ++ rest) = bs ++ Buffer_from_hex rest.
Proof.
  induction bs as [|b bs IH]; [done|].
  cbn [toString_hex flat_map]. rewrite <- app_assoc, Buffer_from_hex_byte.
  fold (toString_hex bs). by rewrite IH.
Qed.

Lemma Buffer_from_hex_toString_hex bs :
  Buffer_from_hex (toString_hex bs) = bs.
Proof.
  rewrite <- (app_nil_r (toString_hex bs)), Buffer_from_hex_app.
  apply app_nil_r.
Qed.

Lemma toString_hex_no_pipe bs : Forall (fun c => c <> pipe) (toString_hex bs).
Proof.
  induction bs as [|b bs IH]; [constructor|].
  pose proof (to_N_lt_256 b) as Hb.
  cbn [toString_hex flat_map]. apply Forall_app. split; [|exact IH].
  unfold hex_of_byte. repeat constructor; apply hex_digit_not_pipe; lia.
Qed.

Lemma length_toString_hex bs : length (toString_hex bs) = (2 * length bs)%nat.
Proof.
  induction bs as [|b bs IH]; [done|].
  cbn [toString_hex flat_map]. rewrite length_app. fold (toString_hex bs).
  rewrite IH. simpl. lia.
Qed.

(** A string without separator is one segment. *)
Lemma split_no_sep sep s :
  Forall (fun c => c <> sep) s -> split sep s = [s].
Proof.
  induction 1 as [|c rest Hc _ IH]; [done|].
  simpl. destruct (N.eqb_spec c sep); [done|]. by rewrite IH.
Qed.

(** The first separator ends the first segment. *)
Lemma split_app_sep sep s t :
  Forall (fun c => c <> sep) s ->
  split sep (s ++ sep :: t) = s :: split sep t.
Proof.
  induction 1 as [|c rest Hc _ IH]; simpl.
  - by rewrite N.eqb_refl.
  - destruct (N.eqb_spec c sep); [done|]. by rewrite IH.
Qed.

(** ** Counter mode and tags *)

Lemma xorb_cancel a k : xorb (xorb a k) k = a.
Proof. by destruct a, k. Qed.

Lemma xor_byte_involutive a k : xor_byte (xor_byte a k) k = a.
Proof.
  unfold xor_byte. rewrite <- (Byte.of_bits_to_bits a) at 2.
  destruct (Byte.to_bits a) as (a0 & a1 & a2 & a3 & a4 & a5 & a6 & a7).
  destruct (Byte.to_bits k) as (k0 & k1 & k2 & k3 & k4 & k5 & k6 & k7).
  rewrite Byte.to_bits_of_bits. by rewrite !xorb_cancel.
Qed.

Lemma ctr_from_involutive stream i data :
  ctr_from stream i (ctr_from stream i data) = data.
Proof.
  revert i. induction data as [|b rest IH]; intros i; [done|].
  simpl. by rewrite xor_byte_involutive, IH.
Qed.

Lemma length_ctr_from stream i data :
  length (ctr_from stream i data) = length data.
Proof.
  revert i. induction data as [|b rest IH]; intros i; [done|].
  simpl. by rewrite IH.
Qed.

Lemma length_be_bytes n x : length (be_bytes n x) = n.
Proof.
  revert x. induction n as [|n IH]; intros x; [done|].
  simpl. rewrite length_app, IH. simpl. lia.
Qed.

Lemma bytes_eqb_eq a b : bytes_eqb a b = true <-> a = b.
Proof.
  revert b. induction a as [|x a IH]; intros [|y b]; simpl; try done.
  rewrite andb_true_iff, IH. split.
  - intros [Hxy ->]. by apply Byte.byte_dec_bl in Hxy as ->.
  - intros [= -> ->]. split; [by apply Byte.byte_dec_lb|done].
Qed.

Lemma bytes_eqb_refl a : bytes_eqb a a = true.
Proof. by apply bytes_eqb_eq. Qed.

Lemma bytes_eqb_neq a b : a <> b -> bytes_eqb a b = false.
Proof.
  intros Hne. destruct (bytes_eqb a b) eqn:E; [|done].
  by apply bytes_eqb_eq in E.
Qed.

(* ================================================================== *)
(** * UTF-8 *)
(* ================================================================== *)

(** A code point that is no surrogate and not above U+10FFFF. *)
Definition scalar_value (cp : N) : Prop :=
  (cp < 0xD800)%N \/ (0xE000 <= cp < 0x110000)%N.

(** One step of [utf8_decode], the calls on what follows left folded. *)
Ltac decode_step :=
  match goal with
  | |- context [utf8_decode (?b :: ?r)] =>
      let r0 := fresh "r0" in
      remember r as r0; cbn [utf8_decode]; subst r0; cbv beta match zeta
  end.

Lemma is_continuation_true x :
  (0x80 <= x < 0xC0)%N -> is_continuation x = true.
Proof. intros Hx. unfold is_continuation. by decide_tests. Qed.

Lemma second_of_three_true x0 x1 :
  (0x80 <= x1 < 0xC0)%N ->
  (x0 = 0xE0 -> 0xA0 <= x1)%N -> (x0 = 0xED -> x1 < 0xA0)%N ->
  second_of_three x0 x1 = true.
Proof.
  intros H1 HE0 HED. unfold second_of_three, is_continuation.
  destruct (N.eqb_spec x0 0xE0) as [E|E]; [specialize (HE0 E)|];
    (destruct (N.eqb_spec x0 0xED) as [D|D]; [specialize (HED D)|]);
    by decide_tests.
Qed.

Lemma second_of_four_true x0 x1 :
  (0x80 <= x1 < 0xC0)%N ->
  (x0 = 0xF0 -> 0x90 <= x1)%N -> (x0 = 0xF4 -> x1 < 0x90)%N ->
  second_of_four x0 x1 = true.
Proof.
  intros H1 HF0 HF4. unfold second_of_four, is_continuation.
  destruct (N.eqb_spec x0 0xF0) as [E|E]; [specialize (HF0 E)|];
    (destruct (N.eqb_spec x0 0xF4) as [D|D]; [specialize (HF4 D)|]);
    by decide_tests.
Qed.

Lemma utf8_decode_one b r :
  (Byte.to_N b < 0x80)%N ->
  utf8_decode (b :: r) = Byte.to_N b :: utf8_decode r.
Proof. intros Hb. decode_step. by decide_tests. Qed.

Lemma utf8_decode_two b0 b1 r :
  (0xC2 <= Byte.to_N b0 < 0xE0)%N ->
  (0x80 <= Byte.to_N b1 < 0xC0)%N ->
  utf8_decode (b0 :: b1 :: r)
  = ((Byte.to_N b0 - 0xC0) * 64 + (Byte.to_N b1 - 0x80))%N :: utf8_decode r.
Proof.
  intros H0 H1. decode_step. decide_tests.
  by rewrite is_continuation_true.
Qed.

Lemma utf8_decode_three b0 b1 b2 r :
  (0xE0 <= Byte.to_N b0 < 0xF0)%N ->
  (0x80 <= Byte.to_N b1 < 0xC0)%N ->
  (Byte.to_N b0 = 0xE0 -> 0xA0 <= Byte.to_N b1)%N ->
  (Byte.to_N b0 = 0xED -> Byte.to_N b1 < 0xA0)%N ->
  (0x80 <= Byte.to_N b2 < 0xC0)%N ->
  utf8_decode (b0 :: b1 :: b2 :: r)
  = ((Byte.to_N b0 - 0xE0) * 4096 + (Byte.to_N b1 - 0x80) * 64
     + (Byte.to_N b2 - 0x80))%N :: utf8_decode r.
Proof.
  intros H0 H1 HE0 HED H2. decode_step. decide_tests.
  by rewrite second_of_three_true, is_continuation_true.
Qed.

Lemma utf8_decode_four b0 b1 b2 b3 r :
  (0xF0 <= Byte.to_N b0 < 0xF5)%N ->
  (0x80 <= Byte.to_N b1 < 0xC0)%N ->
  (Byte.to_N b0 = 0xF0 -> 0x90 <= Byte.to_N b1)%N ->
  (Byte.to_N b0 = 0xF4 -> Byte.to_N b1 < 0x90)%N ->
  (0x80 <= Byte.to_N b2 < 0xC0)%N ->
  (0x80 <= Byte.to_N b3 < 0xC0)%N ->
  utf8_decode (b0 :: b1 :: b2 :: b3 :: r)
  = code_units_of ((Byte.to_N b0 - 0xF0) * 262144
                   + (Byte.to_N b1 - 0x80) * 4096
                   + (Byte.to_N b2 - 0x80) * 64 + (Byte.to_N b3 - 0x80))%N
    ++ utf8_decode r.
Proof.
  intros H0 H1 HF0 HF4 H2 H3. decode_step. decide_tests.
  by rewrite second_of_four_true, !is_continuation_true.
Qed.

(** Decoding the bytes of a code point gives its code units back. *)
Lemma utf8_decode_code_point cp tail :
  scalar_value cp ->
  utf8_decode (utf8_of_code_point cp ++ tail)
  = code_units_of cp ++ utf8_decode tail.
Proof.
  intros Hcp. unfold scalar_value in Hcp. unfold utf8_of_code_point.
  destruct (N.ltb_spec cp 0x80); [|destruct (N.ltb_spec cp 0x800);
    [|destruct (N.ltb_spec cp 0x10000)]]; cbn [app].
  - rewrite utf8_decode_one; rewrite !to_N_byte_of_N by lia; [|lia].
    unfold code_units_of. by decide_tests.
  - rewrite utf8_decode_two; rewrite !to_N_byte_of_N by lia; [|lia..].
    unfold code_units_of. decide_tests. cbn [app]. f_equal. lia.
  - rewrite utf8_decode_three; rewrite !to_N_byte_of_N by lia; [|lia..].
    unfold code_units_of. decide_tests. cbn [app]. f_equal. lia.
  - rewrite utf8_decode_four; rewrite !to_N_byte_of_N by lia; [|lia..].
    f_equal. f_equal. lia.
Qed.

(** A well-formed pair of surrogates is the code units of its code point. *)
Lemma code_units_of_pair hi lo :
  is_high_surrogate hi = true -> is_low_surrogate lo = true ->
  let cp := (0x10000 + (hi - 0xD800) * 1024 + (lo - 0xDC00))%N in
  scalar_value cp /\ code_units_of cp = [hi; lo].
Proof.
  unfold is_high_surrogate, is_low_surrogate, scalar_value, code_units_of.
  intros [H1 H2]%andb_true_iff [H3 H4]%andb_true_iff.
  apply N.leb_le in H1, H3. apply N.ltb_lt in H2, H4.
  cbv zeta. split; [lia|]. decide_tests. f_equal; [lia|f_equal; lia].
Qed.

(** On a well-formed string, decoding undoes encoding. *)
Lemma utf8_decode_encode s :
  well_formed s = true -> utf8_decode (utf8_encode s) = s.
Proof.
  remember (length s) as n eqn:Hn. revert s Hn.
  induction n as [n IH] using lt_wf_ind. intros [|u rest] Hn Hwf; [done|].
  cbn [well_formed utf8_encode] in Hwf |- *.
  destruct (is_high_surrogate u) eqn:Hhi.
  - destruct rest as [|lo rest']; [done|].
    apply andb_true_iff in Hwf as [Hlo Hwf]. rewrite Hlo.
    destruct (code_units_of_pair u lo Hhi Hlo) as [Hcp Hunits].
    rewrite utf8_decode_code_point by done. rewrite Hunits.
    rewrite (IH (length rest')); [done| |done|done].
    subst n. simpl. lia.
  - apply andb_true_iff in Hwf as [[Hlo Hu]%andb_true_iff Hwf].
    apply negb_true_iff in Hlo. rewrite Hlo.
    apply N.ltb_lt in Hu.
    rewrite utf8_decode_code_point.
    + unfold code_units_of. decide_tests. cbn [app]. f_equal.
      apply (IH (length rest)); [|done|done]. subst n. simpl. lia.
    + unfold scalar_value. unfold is_high_surrogate, is_low_surrogate in *.
      apply andb_false_iff in Hhi, Hlo.
      rewrite N.leb_gt, N.ltb_ge in Hhi, Hlo. lia.
Qed.

(** A lone surrogate is written as U+FFFD, and so is U+FFFD itself: the
    encoding does not tell them apart. *)
Lemma utf8_encode_lone_surrogate :
  utf8_encode [0xD800%N] = utf8_encode [replacement]
  /\ utf8_decode (utf8_encode [0xD800%N]) = [replacement].
Proof. split; reflexivity. Qed.

(* ================================================================== *)
(** * The encrypt/decrypt pair *)
(* ================================================================== *)

Section SecureStoreFacts.
Context `{NodeRuntime}.

Lemma length_getAuthTag K ct : length (getAuthTag K ct) = 16%nat.
Proof. apply length_be_bytes. Qed.

Lemma length_gcm_crypt K data : length (gcm_crypt K data) = length data.
Proof. apply length_ctr_from. Qed.

Lemma gcm_crypt_involutive K data : gcm_crypt K (gcm_crypt K data) = data.
Proof. apply ctr_from_involutive. Qed.

(** The blob is the ciphertext and the tag, in hexadecimal, and nothing
    else. *)
Lemma split_quantumEncrypt K P :
  let ct := gcm_crypt K (utf8_encode P) in
  split pipe (quantumEncrypt K P)
  = [toString_hex ct; toString_hex (getAuthTag K ct)].
Proof.
  cbv zeta. unfold quantumEncrypt. change (js "|") with [pipe].
  cbn [app]. rewrite split_app_sep by apply toString_hex_no_pipe.
  by rewrite split_no_sep by apply toString_hex_no_pipe.
Qed.

(** [decipher] on the genuine ciphertext: the tag is accepted exactly when
    it has an admitted length and is that many leading bytes of the genuine
    tag. *)
Lemma decipher_genuine_data K P tag :
  let ct := gcm_crypt K (utf8_encode P) in
  let t := Buffer_from_hex tag in
  decipher K (toString_hex ct) tag
  = if negb (valid_gcm_tag_length (length t))
    then Thrown (ERR_INVALID_AUTH_TAG (length t))
    else if bytes_eqb (take (length t) (getAuthTag K ct)) t
         then Ok (utf8_decode (utf8_encode P))
         else Thrown ERR_UNABLE_TO_AUTHENTICATE.
Proof.
  cbv zeta. unfold decipher.
  rewrite length_toString_hex, Nat.odd_mul, andb_false_l.
  by rewrite Buffer_from_hex_toString_hex, gcm_crypt_involutive.
Qed.

(** What decrypting a fresh blob returns, well-formed plaintext or not. *)
Lemma quantumDecrypt_quantumEncrypt_utf8 K P :
  quantumDecrypt K (quantumEncrypt K P) = Ok (utf8_decode (utf8_encode P)).
Proof.
  unfold quantumDecrypt. rewrite split_quantumEncrypt. cbn [lookup nth].
  change (decipher K (toString_hex (gcm_crypt K (utf8_encode P)))
            (toString_hex (getAuthTag K (gcm_crypt K (utf8_encode P))))
          = Ok (utf8_decode (utf8_encode P))).
  rewrite decipher_genuine_data. rewrite Buffer_from_hex_toString_hex.
  rewrite length_getAuthTag. cbn [valid_gcm_tag_length negb].
  rewrite firstn_all2 by (rewrite length_getAuthTag; lia).
  by rewrite bytes_eqb_refl.
Qed.

(** C2, as amended. For every key [K] and every plaintext [P] that is a
    well-formed string (no surrogate without its partner), decrypting with
    [K] the blob that [quantumEncrypt] made of [P] under [K] returns exactly
    [P]. *)
Theorem quantumDecrypt_quantumEncrypt K P :
  well_formed P = true ->
  quantumDecrypt K (quantumEncrypt K P) = Ok P.
Proof.
  intros Hwf. rewrite quantumDecrypt_quantumEncrypt_utf8.
  by rewrite utf8_decode_encode.
Qed.

(** A plaintext with a lone surrogate does not come back, whatever the key
    and the cipher: U+FFFD does. *)
Lemma quantumDecrypt_lone_surrogate K :
  quantumDecrypt K (quantumEncrypt K [0xD800%N]) = Ok [replacement].
Proof. by rewrite quantumDecrypt_quantumEncrypt_utf8. Qed.

(** ** A blob whose tag segment was replaced *)

(** The blob of [P] with [tag'] in place of its tag segment. *)
Definition with_tag (K P tag' : jsstring) : jsstring :=
  toString_hex (gcm_crypt K (utf8_encode P)) ++ js "|" ++ tag'.

Lemma with_tag_genuine K P :
  with_tag K P (toString_hex (getAuthTag K (gcm_crypt K (utf8_encode P))))
  = quantumEncrypt K P.
Proof. done. Qed.

Lemma quantumDecrypt_with_tag K P tag' :
  Forall (fun c => c <> pipe) tag' ->
  quantumDecrypt K (with_tag K P tag')
  = decipher K (toString_hex (gcm_crypt K (utf8_encode P))) tag'.
Proof.
  intros Htag. unfold quantumDecrypt, with_tag. change (js "|") with [pipe].
  cbn [app]. rewrite split_app_sep by apply toString_hex_no_pipe.
  by rewrite split_no_sep by done.
Qed.

(** What the check of the tag does refuse: when the tag segment of the
    blob of [P] is replaced by a string [tag'] whose bytes (read as
    hexadecimal) are not leading bytes of the genuine tag in one of the
    lengths GCM admits (4, 8, 12 to 16), [quantumDecrypt] throws and
    returns no plaintext: it throws "Invalid authentication tag length"
    when the length is not admitted, and "Unsupported state or unable to
    authenticate data" otherwise. *)
Lemma quantumDecrypt_rejects_tampered_tag K P tag' :
  Forall (fun c => c <> pipe) tag' ->
  let t := Buffer_from_hex tag' in
  let genuine := getAuthTag K (gcm_crypt K (utf8_encode P)) in
  ~ (valid_gcm_tag_length (length t) = true /\ take (length t) genuine = t) ->
  quantumDecrypt K (with_tag K P tag')
  = Thrown (if valid_gcm_tag_length (length t)
            then ERR_UNABLE_TO_AUTHENTICATE
            else ERR_INVALID_AUTH_TAG (length t)).
Proof.
  intros Htag t genuine Hbad. rewrite quantumDecrypt_with_tag by done.
  rewrite decipher_genuine_data. fold t genuine.
  destruct (valid_gcm_tag_length (length t)) eqn:Hlen; cbn [negb]; [|done].
  rewrite bytes_eqb_neq; [done|]. intros Heq. by apply Hbad.
Qed.

(** A tag cut to leading bytes of an admitted length is accepted. *)
Lemma quantumDecrypt_truncated_tag K P n :
  valid_gcm_tag_length n = true ->
  let genuine := getAuthTag K (gcm_crypt K (utf8_encode P)) in
  quantumDecrypt K (with_tag K P (toString_hex (take n genuine)))
  = Ok (utf8_decode (utf8_encode P)).
Proof.
  intros Hn genuine.
  assert (n <= 16)%nat as Hle.
  { unfold valid_gcm_tag_length in Hn.
    repeat (apply orb_true_iff in Hn as [Hn|Hn]).
    - apply Nat.eqb_eq in Hn. lia.
    - apply Nat.eqb_eq in Hn. lia.
    - apply andb_true_iff in Hn as [_ Hn]. by apply Nat.leb_le in Hn. }
  rewrite quantumDecrypt_with_tag by apply toString_hex_no_pipe.
  rewrite decipher_genuine_data. rewrite Buffer_from_hex_toString_hex.
  fold genuine.
  assert (length (take n genuine) = n) as ->.
  { rewrite length_take. unfold genuine. rewrite length_getAuthTag. lia. }
  by rewrite Hn, bytes_eqb_refl.
Qed.

(** C3, on the code. [quantumDecrypt] hands [setAuthTag] the bytes of the
    tag segment and fixes no tag length ([authTagLength] is not given), so
    that GCM takes a tag of any length it admits and compares it with as
    many leading bytes of the tag it computes. For [n] among 4, 8, 12, 13,
    14 and 15, the blob of [P] with its tag cut to its first [n] bytes is
    not the blob of [P], and [quantumDecrypt] does not fail on it: it
    returns what it returns for the blob itself, the plaintext. *)
Theorem quantumDecrypt_accepts_truncated_tag K P n :
  valid_gcm_tag_length n = true ->
  (n < 16)%nat ->
  let genuine := getAuthTag K (gcm_crypt K (utf8_encode P)) in
  let cut := with_tag K P (toString_hex (take n genuine)) in
  cut <> quantumEncrypt K P
  /\ split pipe cut
     = [toString_hex (gcm_crypt K (utf8_encode P));
        toString_hex (take n genuine)]
  /\ length (take n genuine) = n
  /\ quantumDecrypt K cut = quantumDecrypt K (quantumEncrypt K P)
  /\ (well_formed P = true -> quantumDecrypt K cut = Ok P).
Proof.
  intros Hn Hlt genuine cut.
  assert (length (take n genuine) = n) as Hlen.
  { rewrite length_take. unfold genuine. rewrite length_getAuthTag. lia. }
  split; [|split; [|split; [done|split]]].
  - intros Heq. apply (f_equal length) in Heq. revert Heq.
    unfold cut, with_tag, quantumEncrypt.
    rewrite !length_app, !length_toString_hex, Hlen, length_getAuthTag. lia.
  - unfold cut, with_tag. change (js "|") with [pipe]. cbn [app].
    rewrite split_app_sep by apply toString_hex_no_pipe.
    by rewrite split_no_sep by apply toString_hex_no_pipe.
  - unfold cut, genuine. rewrite quantumDecrypt_truncated_tag by done.
    by rewrite quantumDecrypt_quantumEncrypt_utf8.
  - intros Hwf. unfold cut, genuine.
    rewrite quantumDecrypt_truncated_tag by done.
    by rewrite utf8_decode_encode.
Qed.

(** Characters after the digits of the tag are not read. *)
Lemma quantumDecrypt_trailing_characters K P junk :
  Forall (fun c => c <> pipe) junk ->
  Buffer_from_hex junk = [] ->
  let genuine := getAuthTag K (gcm_crypt K (utf8_encode P)) in
  quantumDecrypt K (with_tag K P (toString_hex genuine ++ junk))
  = Ok (utf8_decode (utf8_encode P)).
Proof.
  intros Hjunk Hnone genuine. rewrite quantumDecrypt_with_tag.
  - rewrite decipher_genuine_data, Buffer_from_hex_app, Hnone, app_nil_r.
    fold genuine. unfold genuine at 1 2. rewrite length_getAuthTag.
    cbn [valid_gcm_tag_length negb Nat.eqb Nat.leb orb andb].
    rewrite firstn_all2 by (unfold genuine; rewrite length_getAuthTag; lia).
    by rewrite bytes_eqb_refl.
  - apply Forall_app. split; [apply toString_hex_no_pipe|done].
Qed.

(** ** Strings that are not blobs *)

Lemma quantumDecrypt_no_pipe K s :
  Forall (fun c => c <> pipe) s ->
  quantumDecrypt K s = Thrown ERR_INVALID_ARG_TYPE.
Proof. intros Hs. unfold quantumDecrypt. by rewrite split_no_sep. Qed.

Lemma quantumDecrypt_empty_tag K data rest :
  Forall (fun c => c <> pipe) data ->
  quantumDecrypt K (data ++ js "|") = Thrown (ERR_INVALID_AUTH_TAG 0)
  /\ quantumDecrypt K (data ++ js "||" ++ rest)
     = Thrown (ERR_INVALID_AUTH_TAG 0).
Proof.
  intros Hdata. unfold quantumDecrypt.
  change (js "|") with [pipe]. change (js "||") with [pipe; pipe].
  cbn [app]. rewrite !split_app_sep by done. split; [done|].
  cbn [split]. by rewrite N.eqb_refl.
Qed.

(** What follows a second pipe is not read. *)
Lemma quantumDecrypt_ignores_extra_segments K data tag rest :
  Forall (fun c => c <> pipe) data -> Forall (fun c => c <> pipe) tag ->
  quantumDecrypt K (data ++ js "|" ++ tag ++ js "|" ++ rest)
  = quantumDecrypt K (data ++ js "|" ++ tag).
Proof.
  intros Hdata Htag. unfold quantumDecrypt.
  change (js "|") with [pipe]. cbn [app].
  rewrite !split_app_sep by done.
  by rewrite (split_no_sep pipe tag) by done.
Qed.

(** C5, as amended. A string without pipe is rejected: [quantumDecrypt]
    throws (a [TypeError], as [Buffer.from] is given [undefined]) and returns
    nothing; so is a string whose tag segment is empty (the tag length 0 is
    not admitted). A string with more than one pipe is not rejected for
    that: what follows the second pipe is not read. *)
Theorem quantumDecrypt_malformed K :
  (forall s, Forall (fun c => c <> pipe) s ->
     quantumDecrypt K s = Thrown ERR_INVALID_ARG_TYPE)
  /\ (forall data rest, Forall (fun c => c <> pipe) data ->
     quantumDecrypt K (data ++ js "|") = Thrown (ERR_INVALID_AUTH_TAG 0)
     /\ quantumDecrypt K (data ++ js "||" ++ rest)
        = Thrown (ERR_INVALID_AUTH_TAG 0))
  /\ (forall data tag rest,
     Forall (fun c => c <> pipe) data -> Forall (fun c => c <> pipe) tag ->
     quantumDecrypt K (data ++ js "|" ++ tag ++ js "|" ++ rest)
     = quantumDecrypt K (data ++ js "|" ++ tag)).
Proof.
  split; [|split].
  - apply quantumDecrypt_no_pipe.
  - apply quantumDecrypt_empty_tag.
  - apply quantumDecrypt_ignores_extra_segments.
Qed.

(** A blob followed by a pipe and anything decrypts as the blob does. *)
Lemma quantumDecrypt_extra_segments K P rest :
  quantumDecrypt K (quantumEncrypt K P ++ js "|" ++ rest)
  = Ok (utf8_decode (utf8_encode P)).
Proof.
  rewrite <- (quantumDecrypt_quantumEncrypt_utf8 K P).
  unfold quantumEncrypt. cbv zeta. rewrite <- !app_assoc.
  apply quantumDecrypt_ignores_extra_segments; apply toString_hex_no_pipe.
Qed.

(** The blob of the empty plaintext has an empty ciphertext segment. *)
Lemma quantumEncrypt_empty K :
  quantumEncrypt K [] = js "|" ++ toString_hex (getAuthTag K [])
  /\ quantumDecrypt K (js "|" ++ toString_hex (getAuthTag K [])) = Ok [].
Proof.
  split; [done|].
  change (js "|" ++ toString_hex (getAuthTag K [])) with (quantumEncrypt K []).
  by rewrite quantumDecrypt_quantumEncrypt_utf8.
Qed.

End SecureStoreFacts.

(* ================================================================== *)
(** * Running asynchronous methods *)
(* ================================================================== *)

Lemma run_bind {S A B} (t : Task S A) (f : A -> Task S B) w s :
  run (t ≫= f) w s
  = match run t w s with
    | (w', s', Resolved a) => run (f a) w' s'
    | (w', s', Failed e) => (w', s', Failed e)
    | (w', s', Pending) => (w', s', Pending)
    end.
Proof.
  unfold mbind, task_bind. revert w s.
  induction t as [a|e|k IH|g k IH|X q k IH]; intros w s;
    cbn [bind run]; try done.
  destruct (serve q w) as [[a|] w']; [apply IH|done].
Qed.

Lemma run_try_catch {S R} (t : Task S R) handler w s :
  run (try_catch t handler) w s
  = match run t w s with
    | (w', s', Failed e) => run (handler e) w' s'
    | r => r
    end.
Proof.
  revert w s.
  induction t as [a|e|k IH|g k IH|X q k IH]; intros w s;
    cbn [try_catch run]; try done.
  destruct (serve q w) as [[a|] w']; [apply IH|done].
Qed.

Lemma set_nexus_nexus this : set_nexus (nexus this) this = this.
Proof. by destruct this. Qed.

(** A method of the hub called from the integration runs as on the hub and
    leaves the other fields of the integration alone. *)
Lemma run_on_nexus {R} (t : Task GodHeadNexus R) w this :
  run (on_nexus t) w this
  = let '(w', n', outcome) := run t w (nexus this) in
    (w', set_nexus n' this, outcome).
Proof.
  unfold on_nexus. revert w this.
  induction t as [a|e|k IH|g k IH|X q k IH]; intros w this;
    cbn [on_member run].
  - by rewrite set_nexus_nexus.
  - by rewrite set_nexus_nexus.
  - apply IH.
  - rewrite IH. cbn [nexus set_nexus].
    by destruct (run k w (g (nexus this))) as [[w' n'] outcome].
  - destruct (serve q w) as [[a|] w']; [apply IH|].
    by rewrite set_nexus_nexus.
Qed.

(** ** Properties of the state that every step of a method keeps *)

Lemma keeps_bind {S A B} (I : S -> Prop) (t : Task S A) (f : A -> Task S B) :
  keeps I t -> (forall a, keeps I (f a)) -> keeps I (t ≫= f).
Proof.
  unfold mbind, task_bind. intros Ht Hf.
  induction t as [a|e|k IH|g k IH|X q k IH]; cbn [bind keeps] in *;
    try done; auto.
  destruct Ht as [Hg Hk]. auto.
Qed.

Lemma keeps_try_catch {S R} (I : S -> Prop) (t : Task S R) handler :
  keeps I t -> (forall e, keeps I (handler e)) ->
  keeps I (try_catch t handler).
Proof.
  intros Ht Hh.
  induction t as [a|e|k IH|g k IH|X q k IH]; cbn [try_catch keeps] in *;
    try done; auto.
  destruct Ht as [Hg Hk]. auto.
Qed.

Lemma keeps_modify {S} (I : S -> Prop) f :
  (forall s, I s -> I (f s)) -> keeps I (modify f).
Proof. intros Hf. by split. Qed.

Lemma keeps_get {S} (I : S -> Prop) : keeps I (get (S := S)).
Proof. by intros s. Qed.

Lemma keeps_mret {S A} (I : S -> Prop) (a : A) : keeps I (mret (M := Task S) a).
Proof. done. Qed.

Lemma keeps_await {S X} (I : S -> Prop) (q : Request X) :
  keeps I (await (S := S) q).
Proof. by intros [x|e]. Qed.

Lemma keeps_of_result {S A} (I : S -> Prop) (r : Result A) :
  keeps I (of_result (S := S) r).
Proof. by destruct r. Qed.

(** A call run to its end keeps what each of its steps keeps. *)
Lemma keeps_run {S R} (I : S -> Prop) (t : Task S R) w s :
  keeps I t -> I s -> I (run t w s).1.2.
Proof.
  revert w s.
  induction t as [a|e|k IH|g k IH|X q k IH]; intros w s Ht Hs;
    cbn [run keeps] in *; auto.
  - destruct Ht as [Hg Hk]. auto.
  - destruct (serve q w) as [[a|] w']; [by apply IH|done].
Qed.

(** So does the part that runs at once, and what is left keeps it too. *)
Lemma keeps_start {S R} (I : S -> Prop) (t : Task S R) s :
  keeps I t -> I s -> I (start t s).1 /\ keeps I (start t s).2.
Proof.
  revert s.
  induction t as [a|e|k IH|g k IH|X q k IH]; intros s Ht Hs;
    cbn [start keeps] in *; auto.
  destruct Ht as [Hg Hk]. auto.
Qed.

(* ================================================================== *)
(** * The hub *)
(* ================================================================== *)

(** A property of the hub object that depends on [quantumKey] and
    [lastPrediction] only. *)
Definition on_fixed_fields (I : GodHeadNexus -> Prop) : Prop :=
  forall n n', quantumKey n' = quantumKey n ->
               lastPrediction n' = lastPrediction n -> I n -> I n'.

Lemma emit_fixed_fields ev n :
  quantumKey (emit ev n) = quantumKey n
  /\ lastPrediction (emit ev n) = lastPrediction n.
Proof.
  destruct ev; cbn; try done.
  unfold handleMarketAlert. by destruct (_ <? _)%float.
Qed.

Section HubFacts.
Context `{NodeRuntime}.

(** An update that leaves [quantumKey] and [lastPrediction] alone keeps
    [I]. *)
Ltac fixed_fields HI :=
  let n := fresh "n" in
  let Hn := fresh "Hn" in
  intros n Hn; (eapply HI; [| |exact Hn]); try done; apply emit_fixed_fields.

(** Takes a method apart into its updates of the state. *)
Ltac keeps_step HI :=
  match goal with
  | |- keeps ?I (modify ?f) => apply (keeps_modify I f); fixed_fields HI
  | |- keeps ?I get => apply (keeps_get I)
  | |- keeps ?I (mret ?a) => apply (keeps_mret I a)
  | |- keeps ?I (await ?q) => apply (keeps_await I q)
  | |- keeps ?I (of_result ?r) => apply (keeps_of_result I r)
  | |- keeps ?I (try_catch ?t ?h) => apply (keeps_try_catch I t h)
  | |- keeps ?I (?t ≫= ?f) => apply (keeps_bind I t f)
  | |- forall _, keeps _ _ => intro
  end.

Lemma loadModel_keeps I : on_fixed_fields I -> keeps I loadModel.
Proof. intros HI. unfold loadModel. repeat keeps_step HI. Qed.

Lemma predictAdjustment_keeps I marketData :
  on_fixed_fields I -> keeps I (predictAdjustment marketData).
Proof.
  intros HI. unfold predictAdjustment.
  keeps_step HI; [keeps_step HI|]. intros this.
  keeps_step HI.
  { destruct (model this); [keeps_step HI|by apply loadModel_keeps]. }
  intros _. keeps_step HI; [keeps_step HI|]. intros this'.
  destruct (model this') as [m|]; [|done].
  repeat keeps_step HI.
Qed.

Lemma fetchIoTSensors_keeps I sensorIds :
  on_fixed_fields I -> keeps I (fetchIoTSensors sensorIds).
Proof.
  intros HI. unfold fetchIoTSensors.
  destruct sensorIds; repeat keeps_step HI.
Qed.

Lemma triggerFederatedTraining_keeps I contributionData :
  on_fixed_fields I -> keeps I (triggerFederatedTraining contributionData).
Proof.
  intros HI. unfold triggerFederatedTraining.
  destruct contributionData; repeat keeps_step HI; done.
Qed.

(** No method of the hub assigns [quantumKey] or [lastPrediction]. *)
Lemma hub_task_keeps I c : on_fixed_fields I -> keeps I (hub_task c).
Proof.
  intros HI. destruct c; cbn [hub_task].
  - by apply loadModel_keeps.
  - keeps_step HI; [by apply predictAdjustment_keeps|repeat keeps_step HI].
  - keeps_step HI; [by apply fetchIoTSensors_keeps|repeat keeps_step HI].
  - keeps_step HI;
      [by apply triggerFederatedTraining_keeps|repeat keeps_step HI].
  - keeps_step HI; [|repeat keeps_step HI]. unfold queryContractOracle.
    keeps_step HI; [by apply predictAdjustment_keeps|].
    repeat keeps_step HI.
Qed.

Lemma run_calls_keeps I calls w this :
  on_fixed_fields I -> I this -> I (run_calls calls w this).2.
Proof.
  intros HI. revert w this.
  induction calls as [|c rest IH]; intros w this Hthis; [done|].
  cbn [run_calls].
  pose proof (keeps_run I (hub_task c) w this (hub_task_keeps I c HI) Hthis)
    as Hstep.
  destruct (run (hub_task c) w this) as [[w' this'] outcome].
  by apply IH.
Qed.

Lemma run_calls_fixed_fields calls w this :
  quantumKey (run_calls calls w this).2 = quantumKey this
  /\ lastPrediction (run_calls calls w this).2 = lastPrediction this.
Proof.
  apply (run_calls_keeps
           (fun n => quantumKey n = quantumKey this
                     /\ lastPrediction n = lastPrediction this));
    [|done].
  intros n n' Hk Hl [? ?]. split; congruence.
Qed.

(** A step of the hub with overlapping calls keeps what the methods keep,
    in the hub and in the calls under way. *)
Lemma hub_step_keeps I st st' :
  on_fixed_fields I -> hub_step st st' ->
  I st.1 /\ Forall (keeps I) st.2 -> I st'.1 /\ Forall (keeps I) st'.2.
Proof.
  intros HI Hstep [Hthis Hcalls].
  destruct Hstep as [c this calls|X q k a this before after];
    cbn [fst snd] in *.
  - destruct (keeps_start I (hub_task c) this (hub_task_keeps I c HI) Hthis)
      as [Hthis' Hrest].
    split; [done|]. apply Forall_app. split; [done|]. by constructor.
  - apply Forall_app in Hcalls as [Hbefore Hafter].
    apply Forall_cons in Hafter as [Hk Hafter]. cbn [keeps] in Hk.
    destruct (keeps_start I (k a) this (Hk a) Hthis) as [Hthis' Hrest].
    split; [done|]. apply Forall_app. split; [done|]. by constructor.
Qed.

Lemma hub_steps_keep I st st' :
  on_fixed_fields I -> rtc hub_step st st' ->
  I st.1 /\ Forall (keeps I) st.2 -> I st'.1 /\ Forall (keeps I) st'.2.
Proof.
  intros HI Hsteps. induction Hsteps as [st|st st' st'' Hstep _ IH]; [done|].
  intros Hst. apply IH. by apply (hub_step_keeps I st st').
Qed.

Lemma hub_steps_fixed_fields this this' calls :
  rtc hub_step (this, []) (this', calls) ->
  quantumKey this' = quantumKey this
  /\ lastPrediction this' = lastPrediction this.
Proof.
  intros Hsteps.
  apply (hub_steps_keep
           (fun n => quantumKey n = quantumKey this
                     /\ lastPrediction n = lastPrediction this)
           _ _) in Hsteps as [Hthis' _].
  - exact Hthis'.
  - intros n n' Hk Hl [? ?]. split; congruence.
  - by split; [split|constructor].
Qed.

(** C10. After every finite sequence of calls of the operations of the hub
    on a hub that the constructor built, whatever the remote services
    answer, the snapshot that [getNexusStatus] returns has [lastPrediction]
    equal to [null]: when each call ends before the next begins, and when
    the calls overlap in any order. *)
Theorem getNexusStatus_lastPrediction_null key :
  (forall calls w,
     status_lastPrediction
       (getNexusStatus (run_calls calls w (new_GodHeadNexus key)).2)
     = JsNull)
  /\ (forall this calls,
       rtc hub_step (new_GodHeadNexus key, []) (this, calls) ->
       status_lastPrediction (getNexusStatus this) = JsNull).
Proof.
  split.
  - intros calls w. unfold getNexusStatus. cbn [status_lastPrediction].
    by destruct (run_calls_fixed_fields calls w (new_GodHeadNexus key))
      as [_ ->].
  - intros this calls Hsteps. unfold getNexusStatus.
    cbn [status_lastPrediction].
    by destruct (hub_steps_fixed_fields _ _ _ Hsteps) as [_ ->].
Qed.

(** C4, as amended. [quantumEncrypt] uses no nonce: the blob is a function
    of the key and the plaintext alone, so a second call with the same
    plaintext, whatever the hub did in between and whatever the remote
    services answered, returns the same blob; and the blob holds nothing
    but the ciphertext, which has as many bytes as the plaintext, and the
    tag. *)
Theorem quantumEncrypt_deterministic calls w this P :
  let this' := (run_calls calls w this).2 in
  let ct := gcm_crypt (quantumKey this) (utf8_encode P) in
  quantumEncrypt (quantumKey this') P = quantumEncrypt (quantumKey this) P
  /\ split pipe (quantumEncrypt (quantumKey this) P)
     = [toString_hex ct; toString_hex (getAuthTag (quantumKey this) ct)]
  /\ length ct = length (utf8_encode P).
Proof.
  cbv zeta. destruct (run_calls_fixed_fields calls w this) as [-> _].
  split; [done|]. split; [apply split_quantumEncrypt|apply length_gcm_crypt].
Qed.

(** ** Predictions without a model *)

Lemma run_loadModel w this :
  run loadModel w this
  = match serve (tf_loadLayersModel modelUrl) w with
    | (Some (Fulfilled m), w') =>
        (w', emit modelLoaded
               (print (console_log "GodHead Nexus AI model loaded from IPFS.")
                  (set_model (Some m) this)), Resolved tt)
    | (Some (Rejected e), w') =>
        (w', print (console_error "Failed to load model:" e) this,
         Resolved tt)
    | (None, w') => (w', this, Pending)
    end.
Proof.
  unfold loadModel. cbn -[serve emit print set_model].
  by destruct (serve (tf_loadLayersModel modelUrl) w) as [[[m|e]|] w'].
Qed.

(** A prediction with the model loaded calls no remote service. *)
Lemma run_predictAdjustment_loaded marketData w this m :
  model this = Some m ->
  run (predictAdjustment marketData) w this
  = match predict m marketData with
    | Ok adjustment =>
        (w, emit (predictionMade adjustment marketData)
              (print (console_log
                 "Nexus Prediction: Adjust PI by ${adjustment} for peg $314,159")
                 this), Resolved adjustment)
    | Thrown e => (w, this, Failed e)
    end.
Proof.
  intros Hm. unfold predictAdjustment.
  cbn -[serve emit print set_model]. rewrite Hm.
  cbn -[serve emit print set_model]. rewrite Hm.
  by destruct (predict m marketData).
Qed.

(** The world after a call of the loader that it answered. *)
Definition after_load (w : World) : World :=
  {| loader := tail (loader w); sensors_api := sensors_api w;
     storage := storage w;
     received := received w ++ [loadLayersModel_called modelUrl] |}.

(** C6, on the code. A prediction asked while no model is loaded and the
    loader fails: the failure of the load is printed, nothing else changes
    in the hub (the model is still missing, so the next call loads again),
    and the call is rejected with the [TypeError] of reading [predict] from
    [null], not with an error that says that the model is unavailable. *)
Theorem predictAdjustment_without_model marketData w this e rest :
  model this = None ->
  loader w = Rejected e :: rest ->
  let '(w', this', outcome) := run (predictAdjustment marketData) w this in
  w' = after_load w
  /\ this' = print (console_error "Failed to load model:" e) this
  /\ model this' = None
  /\ outcome = Failed (ERR_NULL_PROPERTY "predict")
  /\ error_name (ERR_NULL_PROPERTY "predict") = "TypeError".
Proof.
  intros Hm Hw. unfold predictAdjustment.
  rewrite run_bind. cbn [run get]. rewrite Hm.
  rewrite run_bind, run_loadModel.
  unfold serve. cbn [next_answer]. rewrite Hw. cbn [head tail].
  rewrite run_bind. cbn [run get model print]. rewrite Hm.
  cbn [run loader sensors_api storage received remote_call].
  unfold after_load. rewrite Hw. done.
Qed.

(** ** Calls issued together *)

Lemma start_predictAdjustment_without_model marketData this :
  model this = None ->
  exists k,
    start (predictAdjustment marketData) this
    = (this, Await (tf_loadLayersModel modelUrl) k).
Proof.
  intros Hm. unfold predictAdjustment. cbn -[emit print set_model].
  rewrite Hm. cbn -[emit print set_model]. eauto.
Qed.

(** C9, as amended. Predictions asked together while no model is loaded
    start one load each: when [n] calls have been issued and no load has
    settled yet, [n] loads are in flight, one per call. *)
Theorem concurrent_predictions_load_each calls this :
  model this = None ->
  let '(this', tasks) := issue (map predictAdjustment calls) this in
  this' = this
  /\ Forall (fun t => awaits_load t = true) tasks
  /\ loads_in_flight tasks = length calls.
Proof.
  intros Hm. induction calls as [|marketData rest IH]; [done|].
  cbn [map issue].
  destruct (start_predictAdjustment_without_model marketData this Hm)
    as [k ->].
  destruct (issue (map predictAdjustment rest) this) as [this' tasks].
  destruct IH as (-> & Hall & Hcount). split; [done|]. split.
  - by constructor.
  - unfold loads_in_flight in *. rewrite filter_cons_True by done.
    cbn [length]. by rewrite Hcount.
Qed.

End HubFacts.

(* ================================================================== *)
(** * Processing a sensor reading *)
(* ================================================================== *)

(** The hub after the lines of [predictAdjustment] that follow the
    prediction. *)
Definition after_prediction (adjustment : float) (marketData : list float)
  (n : GodHeadNexus) : GodHeadNexus :=
  emit (predictionMade adjustment marketData)
    (print (console_log
       "Nexus Prediction: Adjust PI by ${adjustment} for peg $314,159") n).

(** The hub after [adjustPiPegging]. *)
Definition after_pegging (adjustment : float) (iotData : Reading)
  (n : GodHeadNexus) : GodHeadNexus :=
  emit (peggingAdjusted (newPeg adjustment) iotData)
    (print (console_log
       "New dynamic PI peg: ${newPeg} influenced by IoT data:") n).

(** The hub after the lines of [triggerFederatedTraining] that follow the
    call of the storage. *)
Definition after_training (cid : string) (contributionData : JsValue)
  (n : GodHeadNexus) : GodHeadNexus :=
  emit (trainingTriggered cid contributionData)
    (print (console_log "Federated training data stored on IPFS: ${cid}") n).

Definition is_console_error (line : ConsoleLine) : bool :=
  match line with
  | console_error _ _ => true
  | console_log _ => false
  end.

(** The lines [console.error] printed. *)
Definition errors_printed (n : GodHeadNexus) : list ConsoleLine :=
  filter (fun line => is_console_error line = true) (console n).

Lemma emitted_emit ev n : emitted (emit ev n) = emitted n ++ [ev].
Proof.
  destruct ev; cbn; try done.
  unfold handleMarketAlert. by destruct (_ <? _)%float.
Qed.

Lemma emitted_print line n : emitted (print line n) = emitted n.
Proof. done. Qed.

Lemma errors_printed_print_log text n :
  errors_printed (print (console_log text) n) = errors_printed n.
Proof.
  unfold errors_printed. cbn [console print]. rewrite filter_app.
  rewrite filter_cons_False by done. by rewrite filter_nil, app_nil_r.
Qed.

Lemma errors_printed_emit ev n : errors_printed (emit ev n) = errors_printed n.
Proof.
  destruct ev; cbn [emit]; unfold handleMarketAlert, adjustPegging;
    repeat (first [ rewrite errors_printed_print_log
                  | destruct (_ <? _)%float ]); done.
Qed.

(** The gate of [processSensorData] on the values of the scenario: open
    when [energyPrice] is 60, shut when it is 10 and when the reading has no
    field of that name. *)
Lemma training_gate_values (data : Reading) :
  (data !! "energyPrice" = Some 60%float ->
   field_gt data "energyPrice" 50 = true)
  /\ (data !! "energyPrice" = Some 10%float ->
      field_gt data "energyPrice" 50 = false)
  /\ (data !! "energyPrice" = None ->
      field_gt data "energyPrice" 50 = false).
Proof. unfold field_gt. repeat split; by intros ->. Qed.

Section IntegrationFacts.
Context `{NodeRuntime}.

Lemma run_triggerFederatedTraining contributionData w n :
  contributionData <> JsUndefined ->
  run (triggerFederatedTraining contributionData) w n
  = match serve (ipfs_add (quantumEncrypt (quantumKey n)
                             (JSON_stringify contributionData))) w with
    | (Some (Fulfilled cid), w') =>
        (w', after_training cid contributionData n, Resolved cid)
    | (Some (Rejected e), w') => (w', n, Failed e)
    | (None, w') => (w', n, Pending)
    end.
Proof.
  intros Hdefined. unfold triggerFederatedTraining, after_training.
  destruct contributionData; [done|..];
    cbn -[serve emit print quantumEncrypt];
    by destruct (serve _ w) as [[[cid|e]|] w'].
Qed.

Lemma run_adjustPiPegging adjustment iotData w this :
  run (adjustPiPegging adjustment iotData) w this
  = (w, set_nexus (after_pegging adjustment iotData (nexus this)) this,
     Resolved tt).
Proof. done. Qed.

(** What [processSensorData] does when the model is loaded and predicts. *)
Lemma run_processSensorData now0 now1 topic data w this m adjustment :
  model (nexus this) = Some m ->
  predict m (features now1 data) = Ok adjustment ->
  let cached :=
    set_sensorData topic
      {| raw := data;
         encrypted := quantumEncrypt (iot_quantumKey this)
                        (JSON_stringify (reading_value data));
         timestamp := now0 |} this in
  let pegged :=
    after_pegging adjustment data
      (after_prediction adjustment (features now1 data) (nexus this)) in
  let done_line :=
    print (console_log
      "IoT data processed. PI pegging adjusted by ${adjustment}") in
  run (processSensorData now0 now1 topic data) w this
  = if field_gt data "energyPrice" 50 then
      match serve (ipfs_add (quantumEncrypt (quantumKey pegged)
                     (JSON_stringify (contribution_of data)))) w with
      | (Some (Fulfilled cid), w') =>
          (w', set_nexus
                 (done_line (after_training cid (contribution_of data) pegged))
                 cached, Resolved tt)
      | (Some (Rejected e), w') => (w', set_nexus pegged cached, Failed e)
      | (None, w') => (w', set_nexus pegged cached, Pending)
      end
    else (w, set_nexus (done_line pegged) cached, Resolved tt).
Proof.
  intros Hm Hp. cbv zeta. unfold processSensorData.
  rewrite run_bind. cbn [run get].
  rewrite run_bind. cbn [run modify].
  rewrite run_bind, run_on_nexus. cbn [nexus set_sensorData].
  rewrite (run_predictAdjustment_loaded _ _ _ m Hm), Hp.
  fold (after_prediction adjustment (features now1 data) (nexus this)).
  rewrite run_bind, run_adjustPiPegging. cbn [nexus set_nexus].
  rewrite run_bind.
  destruct (field_gt data "energyPrice" 50) eqn:Hgt.
  - rewrite run_bind, run_on_nexus. cbn [nexus set_nexus].
    rewrite run_triggerFederatedTraining by done.
    by destruct (serve _ w) as [[[cid|e]|] w'].
  - cbn [run mret task_ret]. by rewrite run_on_nexus.
Qed.

Lemma quantumKey_after_pegging adjustment marketData data n :
  quantumKey (after_pegging adjustment data
                (after_prediction adjustment marketData n))
  = quantumKey n.
Proof.
  unfold after_pegging, after_prediction.
  rewrite (proj1 (emit_fixed_fields _ _)). cbn [quantumKey print].
  by rewrite (proj1 (emit_fixed_fields _ _)).
Qed.

Lemma emitted_after_pegging adjustment marketData data n :
  emitted (after_pegging adjustment data
             (after_prediction adjustment marketData n))
  = emitted n ++ [predictionMade adjustment marketData;
                  peggingAdjusted (newPeg adjustment) data].
Proof.
  unfold after_pegging, after_prediction.
  rewrite emitted_emit, emitted_print, emitted_emit, emitted_print.
  by rewrite <- app_assoc.
Qed.

Lemma errors_printed_after_pegging adjustment marketData data n :
  errors_printed (after_pegging adjustment data
                    (after_prediction adjustment marketData n))
  = errors_printed n.
Proof.
  unfold after_pegging, after_prediction.
  by rewrite errors_printed_emit, errors_printed_print_log,
    errors_printed_emit, errors_printed_print_log.
Qed.




(** C8, on the code. The storage rejects the contribution of a reading
    whose [energyPrice] exceeds 50: [processSensorData] is rejected with the
    error of the storage, which nothing catches, and no [console.error] line
    is printed for it. *)
Theorem processSensorData_storage_failure
    now0 now1 topic data w this m adjustment e rest :
  model (nexus this) = Some m ->
  predict m (features now1 data) = Ok adjustment ->
  field_gt data "energyPrice" 50 = true ->
  storage w = Rejected e :: rest ->
  let '(w', this', outcome) :=
    run (processSensorData now0 now1 topic data) w this in
  outcome = Failed e
  /\ errors_printed (nexus this') = errors_printed (nexus this).
Proof.
  intros Hm Hp Hgt Hs.
  pose proof (run_processSensorData now0 now1 topic data w this m adjustment
                Hm Hp) as Hrun.
  cbv zeta in Hrun. rewrite Hrun, Hgt. clear Hrun.
  unfold serve. cbn [next_answer]. rewrite Hs. cbn [head tail].
  split; [done|]. cbn [nexus set_nexus].
  apply errors_printed_after_pegging.
Qed.

End IntegrationFacts.

(* ================================================================== *)
(** * The peg *)
(* ================================================================== *)

Lemma start_adjustPiPegging adjustment iotData this :
  start (adjustPiPegging adjustment iotData) this
  = (set_nexus (after_pegging adjustment iotData (nexus this)) this,
     Return tt).
Proof. done. Qed.

Lemma published_pegs_after_pegging adjustment iotData this :
  published_pegs
    (set_nexus (after_pegging adjustment iotData (nexus this)) this)
  = published_pegs this ++ [newPeg adjustment].
Proof.
  unfold published_pegs, after_pegging. cbn [nexus set_nexus].
  rewrite emitted_emit, emitted_print. by rewrite omap_app.
Qed.

(** Each call publishes the value it computes from its own adjustment. *)
Lemma published_pegs_adjust_all adjustments this :
  published_pegs (adjust_all adjustments this)
  = published_pegs this ++ map (fun a => newPeg a.1) adjustments.
Proof.
  revert this.
  induction adjustments as [|[adjustment iotData] rest IH]; intros this.
  - by rewrite app_nil_r.
  - cbn [adjust_all map]. rewrite IH, start_adjustPiPegging. cbn [fst].
    by rewrite published_pegs_after_pegging, <- app_assoc.
Qed.

(** C1, as amended. For every sequence of adjustments applied through
    [adjustPiPegging], the value published by each call is
    [3141590000000 + adjustment * 1000000] for the adjustment of that call:
    no bound is applied to it and earlier calls have no part in it. So the
    current value lies in [[min, max]] after every call whenever every
    adjustment [a] of the sequence has
    [min <= 3141590000000 + a * 1000000 <= max]. *)
Theorem adjustPiPegging_current_value min max :
  (forall earlier adjustment iotData this,
     current_value (adjust_all (earlier ++ [(adjustment, iotData)]) this)
     = Some (newPeg adjustment))
  /\ (forall adjustments this,
       Forall (fun a => within min max (newPeg a.1) = true) adjustments ->
       forall applied rest, adjustments = applied ++ rest -> applied <> [] ->
       exists p, current_value (adjust_all applied this) = Some p
                 /\ within min max p = true).
Proof.
  assert (forall earlier adjustment iotData this,
            current_value (adjust_all (earlier ++ [(adjustment, iotData)]) this)
            = Some (newPeg adjustment)) as Hlast.
  { intros earlier adjustment iotData this. unfold current_value.
    rewrite published_pegs_adjust_all, map_app. cbn [map fst].
    by rewrite app_assoc, last_snoc. }
  split; [exact Hlast|].
  intros adjustments this Hall applied rest -> Hne.
  destruct (exists_last Hne) as (earlier & [adjustment iotData] & ->).
  exists (newPeg adjustment). split; [apply Hlast|].
  apply Forall_app in Hall as [Hall _].
  apply Forall_app in Hall as [_ Hall].
  by inversion Hall.
Qed.

(* ================================================================== *)
(** * Concrete runs *)
(* ================================================================== *)

(** The runs below are evaluated on [sample_runtime]; the lemmas they rest on
    hold for every runtime. *)
#[local] Existing Instance sample_runtime.

Definition demo_key : jsstring := js "quantum-secret-key".

(** The model of the tests of the repository: it predicts [0.001]. *)
Definition demo_model : Model := {| predict := fun _ => Ok 0.001%float |}.

Definition load_failed : JsError := ERR_EXTERNAL "Error" "Load failed".

Definition storage_down : JsError := ERR_EXTERNAL "Error" "IPFS unreachable".

(** Remote services that are given the answers of the storage and of the
    loader, and have received nothing yet. *)
Definition services (loads : list (Settled Model))
  (stores : list (Settled string)) : World :=
  {| loader := loads; sensors_api := []; storage := stores; received := [] |}.

(** A hub with its model loaded, and an integration on it. *)
Definition demo_nexus : GodHeadNexus :=
  set_model (Some demo_model) (new_GodHeadNexus demo_key).

Definition demo_iot : IoTIntegration := new_IoTIntegration demo_nexus demo_key.

(** The training events emitted so far. *)
Definition trainings (n : GodHeadNexus) : list (string * JsValue) :=
  omap (fun ev => match ev with
                  | trainingTriggered cid data => Some (cid, data)
                  | _ => None
                  end) (emitted n).

(** The contents handed to the storage so far. *)
Definition stored (w : World) : list jsstring :=
  omap (fun c => match c with
                 | ipfs_add_called content => Some content
                 | _ => None
                 end) (received w).

Example toString_hex_example :
  toString_hex [x00; x0f; xa5; xff] = js "000fa5ff".
Proof. reflexivity. Qed.

Example Buffer_from_hex_example :
  Buffer_from_hex (js "0A0fzz11") = [x0a; x0f].
Proof. reflexivity. Qed.

Example split_example :
  split pipe (js "ab|cd|") = [js "ab"; js "cd"; js ""].
Proof. reflexivity. Qed.

Example utf8_example :
  utf8_encode [0x48; 0xE9; 0x20AC; 0xD83D; 0xDE00]%N
  = [x48; xc3; xa9; xe2; x82; xac; xf0; x9f; x98; x80]
  /\ utf8_decode [x48; xc3; xa9; xe2; x82; xac; xf0; x9f; x98; x80]
     = [0x48; 0xE9; 0x20AC; 0xD83D; 0xDE00]%N.
Proof. split; reflexivity. Qed.

Example quantumEncrypt_example :
  quantumEncrypt demo_key (js "peg")
  = js "455924|df618812a590b9a102979efea675373b".
Proof. vm_compute. reflexivity. Qed.

(** ** C1: the peg *)

(** The scenario of the specification: from 3141590000000, an adjustment
    that scales to +50000000000 publishes 3191590000000. *)
Example adjustPiPegging_scenario :
  current_value (adjust_all [(50000%float, ∅)] demo_iot)
  = Some 3191590000000%float.
Proof. vm_compute. reflexivity. Qed.

(** C1, refuted. With the bound [[0, 4000000000000]] of the specification,
    one adjustment of 1000000 publishes 4141590000000, above the bound. *)
Lemma adjustPiPegging_exceeds_bound :
  current_value (adjust_all [(1000000%float, ∅)] demo_iot)
  = Some 4141590000000%float
  /\ within 0 4000000000000 4141590000000 = false.
Proof. split; vm_compute; reflexivity. Qed.

Lemma adjustPiPegging_current_value_witness :
  exists p,
    current_value (adjust_all [(0.001%float, ∅)] demo_iot) = Some p
    /\ within 0 4000000000000 p = true.
Proof.
  apply (proj2 (adjustPiPegging_current_value 0 4000000000000)
           [(0.001%float, ∅); (50000%float, ∅)] demo_iot)
    with (rest := [(50000%float, ∅)]).
  - repeat constructor.
  - reflexivity.
  - discriminate.
Defined.

(** ** C2: the round trip *)

(** C2, refuted. The plaintext made of the lone surrogate U+D800 comes back
    as U+FFFD. *)
Lemma quantumDecrypt_quantumEncrypt_not_identity :
  quantumDecrypt demo_key (quantumEncrypt demo_key [0xD800%N])
  = Ok [0xFFFD%N]
  /\ quantumDecrypt demo_key (quantumEncrypt demo_key [0xD800%N])
     <> Ok [0xD800%N].
Proof.
  rewrite quantumDecrypt_lone_surrogate. split; [reflexivity|discriminate].
Qed.

Lemma quantumDecrypt_quantumEncrypt_witness :
  quantumDecrypt demo_key (quantumEncrypt demo_key (js "peg 314159"))
  = Ok (js "peg 314159").
Proof. apply quantumDecrypt_quantumEncrypt. reflexivity. Defined.

(** ** C3: a tag that was changed *)

(** The tag segment of the blob of ["peg"] is cut to its first four bytes:
    the string is another one and [quantumDecrypt] returns the plaintext.
    The same holds when the tag is written in upper case, when other
    characters follow it, and when a digit is replaced by a code unit that
    has the digit for low byte (U+0164 for [d]). *)
Example tampered_tag_accepted :
  quantumEncrypt demo_key (js "peg")
  = js "455924|df618812a590b9a102979efea675373b"
  /\ quantumDecrypt demo_key (js "455924|df618812") = Ok (js "peg")
  /\ quantumDecrypt demo_key (js "455924|DF618812A590B9A102979EFEA675373B")
     = Ok (js "peg")
  /\ quantumDecrypt demo_key (js "455924|df618812a590b9a102979efea675373b!")
     = Ok (js "peg")
  /\ quantumDecrypt demo_key
       (js "455924|" ++ [0x164%N] ++ js "f618812a590b9a102979efea675373b")
     = Ok (js "peg").
Proof. repeat split; vm_compute; reflexivity. Qed.

Lemma quantumDecrypt_accepts_truncated_tag_witness :
  js "455924|df618812" <> quantumEncrypt demo_key (js "peg")
  /\ quantumDecrypt demo_key (js "455924|df618812") = Ok (js "peg").
Proof.
  pose proof (quantumDecrypt_accepts_truncated_tag demo_key (js "peg") 4
                eq_refl ltac:(lia)) as W.
  cbv zeta in W. destruct W as (Hne & _ & _ & _ & Hok).
  split; [exact Hne|]. apply Hok. reflexivity.
Defined.

(** A tag that is not the genuine one is refused. *)
Example quantumDecrypt_rejects_changed_tag :
  quantumDecrypt demo_key
    (with_tag demo_key (js "peg") (js "df618812a590b9a102979efea675373c"))
  = Thrown ERR_UNABLE_TO_AUTHENTICATE.
Proof.
  apply (quantumDecrypt_rejects_tampered_tag demo_key (js "peg")
           (js "df618812a590b9a102979efea675373c")).
  - repeat constructor; discriminate.
  - intros [_ Heq]. vm_compute in Heq. discriminate Heq.
Qed.

(** A tag of a length that GCM does not admit: five bytes. *)
Example quantumDecrypt_invalid_tag_length :
  quantumDecrypt demo_key (js "455924|df618812a5")
  = Thrown (ERR_INVALID_AUTH_TAG 5).
Proof. vm_compute. reflexivity. Qed.

(** ** C4: two calls of [quantumEncrypt] *)

(** C4, refuted. The hub encrypts ["peg"], then loads its model and
    predicts, then encrypts ["peg"] again: the two blobs are the same. *)
Lemma quantumEncrypt_same_blob_twice :
  let this := new_GodHeadNexus demo_key in
  let this' :=
    (run_calls [call_loadModel;
                call_predictAdjustment [314159%float; 1000%float]]
       (services [Fulfilled demo_model] []) this).2 in
  model this' = Some demo_model
  /\ quantumEncrypt (quantumKey this) (js "peg")
     = js "455924|df618812a590b9a102979efea675373b"
  /\ quantumEncrypt (quantumKey this') (js "peg")
     = js "455924|df618812a590b9a102979efea675373b".
Proof. repeat split; vm_compute; reflexivity. Qed.

(** ** C5: strings that are not blobs *)

(** C5, refuted. A blob followed by more pipes and segments is decrypted as
    the blob is; a string whose ciphertext segment is empty is the blob of
    the empty plaintext; and a string without pipe is rejected with a
    [TypeError]. *)
Lemma quantumDecrypt_accepts_malformed :
  quantumDecrypt demo_key
    (js "455924|df618812a590b9a102979efea675373b|00|ff") = Ok (js "peg")
  /\ quantumDecrypt demo_key (js "|2492a031e9022bb3270dc108adcc5dfd")
     = Ok (js "")
  /\ quantumDecrypt demo_key (js "455924") = Thrown ERR_INVALID_ARG_TYPE
  /\ error_name ERR_INVALID_ARG_TYPE = "TypeError".
Proof. repeat split; vm_compute; reflexivity. Qed.

Lemma quantumDecrypt_malformed_witness :
  quantumDecrypt demo_key (js "455924df618812a590b9a102979efea675373b")
  = Thrown ERR_INVALID_ARG_TYPE
  /\ quantumDecrypt demo_key (js "455924|df618812|a590b9a1")
     = quantumDecrypt demo_key (js "455924|df618812").
Proof.
  split.
  - apply (proj1 (quantumDecrypt_malformed demo_key)).
    repeat constructor; discriminate.
  - apply (proj2 (proj2 (quantumDecrypt_malformed demo_key))
             (js "455924") (js "df618812") (js "a590b9a1"));
      repeat constructor; discriminate.
Defined.

(** ** C6: predictions while the loader fails *)

(** The hub after three predictions, each of which saw the loader fail. *)
Definition after_three_failures : World * GodHeadNexus :=
  run_calls [call_predictAdjustment [314159%float; 1000%float];
             call_predictAdjustment [314159%float; 1000%float];
             call_predictAdjustment [314159%float; 1000%float]]
    (services [Rejected load_failed; Rejected load_failed;
               Rejected load_failed; Rejected load_failed] [])
    (new_GodHeadNexus demo_key).

(** The fourth prediction is rejected with the [TypeError]. *)
Lemma predictAdjustment_without_model_witness :
  let '(w', this', outcome) :=
    run (predictAdjustment [314159%float; 1000%float])
      after_three_failures.1 after_three_failures.2 in
  w' = after_load after_three_failures.1
  /\ this' = print (console_error "Failed to load model:" load_failed)
               after_three_failures.2
  /\ model this' = None
  /\ outcome = Failed (ERR_NULL_PROPERTY "predict")
  /\ error_name (ERR_NULL_PROPERTY "predict") = "TypeError".
Proof.
  apply (predictAdjustment_without_model [314159%float; 1000%float]
           after_three_failures.1 after_three_failures.2 load_failed []);
    reflexivity.
Defined.

Example predictAdjustment_fourth_call :
  (run (predictAdjustment [314159%float; 1000%float])
     after_three_failures.1 after_three_failures.2).2
  = Failed (ERR_NULL_PROPERTY "predict")
  /\ length (received after_three_failures.1) = 3%nat.
Proof. split; vm_compute; reflexivity. Qed.

(** ** C9: predictions issued together *)

(** C9, refuted. Two predictions issued together on a hub without model:
    two loads are in flight, not one. *)
Lemma two_predictions_two_loads :
  let '(this', tasks) :=
    issue (map predictAdjustment
             [[314159%float; 1000%float]; [314159%float; 1000%float]])
      (new_GodHeadNexus demo_key) in
  loads_in_flight tasks = 2%nat /\ loads_in_flight tasks <> 1%nat.
Proof. vm_compute. split; [reflexivity|discriminate]. Qed.

(** The two loads settle one after the other: the model is loaded twice
    and each call then predicts. *)
Example two_predictions_settle :
  let '(this0, tasks) :=
    issue (map predictAdjustment
             [[314159%float; 1000%float]; [314159%float; 1000%float]])
      (new_GodHeadNexus demo_key) in
  match tasks with
  | [t1; t2] =>
      let '(this1, _) := settle_load (Fulfilled demo_model) t1 this0 in
      let '(this2, _) := settle_load (Fulfilled demo_model) t2 this1 in
      emitted this2
      = [modelLoaded; predictionMade 0.001 [314159%float; 1000%float];
         modelLoaded; predictionMade 0.001 [314159%float; 1000%float]]
  | _ => False
  end.
Proof. vm_compute. reflexivity. Qed.

(** The constructor has already started a load of its own. *)
Example construct_load_in_flight :
  loads_in_flight [(construct demo_key).2] = 1%nat.
Proof. reflexivity. Qed.

Lemma concurrent_predictions_load_each_witness :
  let '(this', tasks) :=
    issue (map predictAdjustment
             [[314159%float; 1000%float]; [1%float]; [2%float]])
      (new_GodHeadNexus demo_key) in
  this' = new_GodHeadNexus demo_key
  /\ Forall (fun t => awaits_load t = true) tasks
  /\ loads_in_flight tasks = 3%nat.
Proof.
  apply (concurrent_predictions_load_each
           [[314159%float; 1000%float]; [1%float]; [2%float]]
           (new_GodHeadNexus demo_key)).
  reflexivity.
Defined.

(** ** C7 and C8: the training contribution *)

Definition reading_energyPrice_60 : Reading := {[ "energyPrice" := 60%float ]}.
Definition reading_energyPrice_10 : Reading := {[ "energyPrice" := 10%float ]}.
Definition reading_energy_price_60 : Reading :=
  {[ "energy_price" := 60%float ]}.


(** A reading that has no field [energyPrice] starts no training: the
    comparison of [undefined] with 50 is false. *)
Example reading_without_energyPrice :
  let '(w', this', outcome) :=
    run (processSensorData 1700000000000 1700000000000 "pi/sensors/energy"
           {[ "commodityIndex" := 100%float ]})
      (services [] [Fulfilled "QmContribution"]) demo_iot in
  outcome = Resolved tt
  /\ trainings (nexus this') = []
  /\ stored w' = []
  /\ published_pegs this' = [3141590001000%float].
Proof. vm_compute. repeat split; reflexivity. Qed.

(** The storage rejects the contribution of the reading [{energyPrice: 60}]:
    the rejection leaves [processSensorData] and nothing is printed with
    [console.error]. *)
Lemma processSensorData_storage_failure_witness :
  let '(w', this', outcome) :=
    run (processSensorData 1700000000000 1700000000000 "pi/sensors/energy"
           reading_energyPrice_60)
      (services [] [Rejected storage_down]) demo_iot in
  outcome = Failed storage_down
  /\ errors_printed (nexus this') = errors_printed (nexus demo_iot).
Proof.
  apply (processSensorData_storage_failure
           1700000000000 1700000000000 "pi/sensors/energy"
           reading_energyPrice_60
           (services [] [Rejected storage_down]) demo_iot
           demo_model 0.001%float storage_down []); reflexivity.
Defined.

Example processSensorData_storage_failure_run :
  (run (processSensorData 1700000000000 1700000000000 "pi/sensors/energy"
          reading_energyPrice_60)
     (services [] [Rejected storage_down]) demo_iot).2
  = Failed storage_down.
Proof. vm_compute. reflexivity. Qed.

(** ** C10: the status *)

Example getNexusStatus_after_predictions :
  getNexusStatus
    (run_calls [call_loadModel;
                call_predictAdjustment [314159%float; 1000%float];
                call_predictAdjustment [314159%float; 1000%float]]
       (services [Fulfilled demo_model] []) (new_GodHeadNexus demo_key)).2
  = {| status_modelLoaded := true; status_iotCache := ∅;
       status_lastPrediction := JsNull |}.
Proof. vm_compute. reflexivity. Qed.

(** A prediction is asked of a new hub and is suspended on its load: the
    status already read has no last prediction. *)
Lemma getNexusStatus_lastPrediction_null_witness :
  status_lastPrediction
    (getNexusStatus
       (start (hub_task (call_predictAdjustment [314159%float; 1000%float]))
          (new_GodHeadNexus demo_key)).1)
  = JsNull.
Proof.
  apply (proj2 (getNexusStatus_lastPrediction_null demo_key) _
           [(start (hub_task (call_predictAdjustment
                                [314159%float; 1000%float]))
               (new_GodHeadNexus demo_key)).2]).
  apply rtc_once.
  apply (step_call (call_predictAdjustment [314159%float; 1000%float])
           (new_GodHeadNexus demo_key) []).
Defined.

(* ================================================================== *)
(** * Further properties of the methods *)
(* ================================================================== *)

Section FurtherFacts.
Context `{NodeRuntime}.

(** X1. The promise of [loadModel] is never rejected: when the loader
    answers, with a model or with an error, it is fulfilled. *)
Theorem loadModel_never_rejects w this e :
  (run loadModel w this).2 <> Failed e.
Proof.
  rewrite run_loadModel.
  by destruct (serve (tf_loadLayersModel modelUrl) w) as [[[m|e']|] w'].
Qed.

(** X2. When a request of [fetchIoTSensors] fails (there is one: the list
    of sensors is not empty), the failure is printed, the cache is left as
    it was and the call returns the empty object. *)
Theorem fetchIoTSensors_failure sensorIds w this e rest :
  sensorIds <> [] ->
  sensors_api w = Rejected e :: rest ->
  let '(w', this', outcome) := run (fetchIoTSensors sensorIds) w this in
  outcome = Resolved ∅
  /\ this' = print (console_error "IoT fetch failed:" e) this
  /\ iotDataCache this' = iotDataCache this.
Proof.
  intros Hids Hw. destruct sensorIds as [|id ids]; [done|].
  unfold fetchIoTSensors. rewrite run_try_catch, run_bind.
  unfold await at 1. cbn [run]. unfold serve. cbn [next_answer].
  rewrite Hw. cbn [head tail run]. rewrite run_bind. by cbn [run modify].
Qed.

(** X3. The blob that [quantumEncrypt] returns holds one pipe: before it
    the ciphertext and after it the 16 bytes of the tag, both in lower-case
    hexadecimal. *)
Theorem quantumEncrypt_blob_format K P :
  exists ct tag,
    quantumEncrypt K P = toString_hex ct ++ js "|" ++ toString_hex tag
    /\ split pipe (quantumEncrypt K P) = [toString_hex ct; toString_hex tag]
    /\ length ct = length (utf8_encode P)
    /\ length tag = 16%nat.
Proof.
  exists (gcm_crypt K (utf8_encode P)),
         (getAuthTag K (gcm_crypt K (utf8_encode P))).
  split; [done|]. split; [apply split_quantumEncrypt|].
  split; [apply length_gcm_crypt|apply length_getAuthTag].
Qed.

(** X4. A prediction on a hub whose model is loaded calls no remote
    service, returns what the model predicts, whatever its size, and emits
    [predictionMade] with this value and the vector it was predicted
    from. *)
Theorem predictAdjustment_emits marketData w this m adjustment :
  model this = Some m ->
  predict m marketData = Ok adjustment ->
  let '(w', this', outcome) := run (predictAdjustment marketData) w this in
  outcome = Resolved adjustment
  /\ w' = w
  /\ emitted this' = emitted this ++ [predictionMade adjustment marketData].
Proof.
  intros Hm Hp. rewrite (run_predictAdjustment_loaded _ _ _ m Hm), Hp.
  split; [done|]. split; [done|]. by rewrite emitted_emit, emitted_print.
Qed.

End FurtherFacts.

Lemma fetchIoTSensors_failure_witness :
  let '(w', this', outcome) :=
    run (fetchIoTSensors default_sensorIds)
      {| loader := []; sensors_api := [Rejected (ERR_EXTERNAL "Error" "ECONNREFUSED")];
         storage := []; received := [] |} demo_nexus in
  outcome = Resolved ∅
  /\ this' = print (console_error "IoT fetch failed:"
                      (ERR_EXTERNAL "Error" "ECONNREFUSED")) demo_nexus
  /\ iotDataCache this' = iotDataCache demo_nexus.
Proof.
  apply (fetchIoTSensors_failure default_sensorIds _ demo_nexus
           (ERR_EXTERNAL "Error" "ECONNREFUSED") []).
  - discriminate.
  - reflexivity.
Defined.

Lemma predictAdjustment_emits_witness :
  let '(w', this', outcome) :=
    run (predictAdjustment [314159%float; 1000%float])
      (services [] []) demo_nexus in
  outcome = Resolved 0.001%float
  /\ w' = services [] []
  /\ emitted this'
     = emitted demo_nexus
       ++ [predictionMade 0.001 [314159%float; 1000%float]].
Proof.
  apply (predictAdjustment_emits [314159%float; 1000%float] (services [] [])
           demo_nexus demo_model 0.001%float); reflexivity.
Defined.

(* ================================================================== *)
(** * The sensors fetched *)
(* ================================================================== *)

(** The object that the [reduce] of [fetchIoTSensors] builds: a sensor that
    is not listed has no entry, nor has [__proto__], and any other sensor
    has the value of its last entry. *)
Lemma lookup_reduce_absent (entries : list (string * float)) (acc : Reading)
    id :
  id ∉ entries.*1 \/ id = "__proto__" ->
  foldl (fun acc '(k, v) => assign k v acc) acc entries !! id = acc !! id.
Proof.
  revert acc. induction entries as [|[k v] rest IH]; intros acc Hid; [done|].
  cbn [foldl]. rewrite IH.
  - unfold assign. case_bool_decide as Hk; [done|].
    apply lookup_insert_ne. intros ->.
    destruct Hid as [Hid|Hid]; [|done]. apply Hid. cbn. left.
  - destruct Hid as [Hid|Hid]; [left|by right].
    cbn [fmap list_fmap fst] in Hid. by apply not_elem_of_cons in Hid as [_ ?].
Qed.

Lemma lookup_reduce_last (before after : list (string * float))
    (acc : Reading) id v :
  id <> "__proto__" ->
  id ∉ after.*1 ->
  foldl (fun acc '(k, v) => assign k v acc) acc (before ++ (id, v) :: after)
    !! id = Some v.
Proof.
  intros Hproto Hid. rewrite foldl_app. cbn [foldl].
  rewrite lookup_reduce_absent by by left.
  unfold assign. rewrite bool_decide_eq_false_2 by done.
  by rewrite lookup_insert_eq.
Qed.

Lemma zip_fst_subseteq (ids : list string) (values : list float) id :
  id ∈ (zip ids values).*1 -> id ∈ ids.
Proof.
  revert values. induction ids as [|k ids IH]; intros [|v values]; cbn;
    try (by intros ?%elem_of_nil).
  intros [->|Hin]%elem_of_cons; [left|right; eauto].
Qed.

Section SensorsFacts.
Context `{NodeRuntime}.

(** X5. When the requests of [fetchIoTSensors] succeed, one value per
    sensor, the cache is replaced by an object that has the sensors asked
    for and no other, each with the value fetched for it (for its last
    entry, when it is listed more than once); a sensor named [__proto__]
    is asked for and gets no entry. This object is returned, is what
    [getNexusStatus] shows, and is the payload of the one event emitted,
    [iotDataUpdated]. For an empty list no request is sent and the cache
    becomes the empty object. *)
Theorem fetchIoTSensors_success sensorIds values w this :
  length values = length sensorIds ->
  (sensorIds <> [] -> exists rest, sensors_api w = Fulfilled values :: rest) ->
  let '(w', this', outcome) := run (fetchIoTSensors sensorIds) w this in
  exists cache : Reading,
    outcome = Resolved cache
    /\ iotDataCache this' = cache
    /\ status_iotCache (getNexusStatus this') = cache
    /\ emitted this' = emitted this ++ [iotDataUpdated cache]
    /\ received w'
       = received w
         ++ match sensorIds with
            | [] => []
            | _ :: _ =>
                [axios_get_called
                   (map (fun id => "https://iot-api.pi-nexus.com/" +:+ id)
                      sensorIds)]
            end
    /\ (forall id, id ∉ sensorIds \/ id = "__proto__" -> cache !! id = None)
    /\ (forall i id v,
          sensorIds !! i = Some id -> values !! i = Some v ->
          id <> "__proto__" ->
          (forall j, (i < j)%nat -> sensorIds !! j <> Some id) ->
          cache !! id = Some v).
Proof.
  intros Hlen Hw.
  assert (run (fetchIoTSensors sensorIds) w this
          = let cache : Reading :=
              foldl (fun acc '(k, v) => assign k v acc) ∅
                    (zip sensorIds values) in
            ({| loader := loader w;
                sensors_api := match sensorIds with
                               | [] => sensors_api w
                               | _ :: _ => tail (sensors_api w)
                               end;
                storage := storage w;
                received :=
                  received w
                  ++ match sensorIds with
                     | [] => []
                     | _ :: _ =>
                         [axios_get_called
                            (map (fun id =>
                                    "https://iot-api.pi-nexus.com/" +:+ id)
                               sensorIds)]
                     end |},
             emit (iotDataUpdated cache)
               (print (console_log "IoT data fetched:")
                  (set_iotDataCache cache this)),
             Resolved cache)) as ->.
  { unfold fetchIoTSensors. rewrite run_try_catch, run_bind.
    destruct sensorIds as [|id ids].
    - destruct values; [|done]. cbn [run mret task_ret]. rewrite run_bind.
      cbn [run modify]. rewrite run_bind. cbn [run modify].
      rewrite run_bind. cbn [run modify mret task_ret zip zip_with foldl].
      rewrite app_nil_r. by destruct w.
    - destruct Hw as [rest Hw]; [done|].
      unfold await at 1. cbn [run]. unfold serve. cbn [next_answer].
      rewrite Hw. cbn [head tail run].
      rewrite run_bind. cbn [run modify]. rewrite run_bind. cbn [run modify].
      rewrite run_bind. by cbn [run modify mret task_ret]. }
  cbv zeta. set (cache := foldl _ ∅ (zip sensorIds values)).
  exists cache. split; [done|].
  assert (iotDataCache
            (emit (iotDataUpdated cache)
               (print (console_log "IoT data fetched:")
                  (set_iotDataCache cache this))) = cache) as Hcache by done.
  split; [done|]. split; [done|].
  split; [by rewrite emitted_emit|]. split; [done|]. split.
  - intros id Hid. unfold cache. rewrite lookup_reduce_absent; [done|].
    destruct Hid as [Hid|Hid]; [left|by right].
    intros Hin. by apply Hid, (zip_fst_subseteq _ values).
  - intros i id v Hi Hv Hproto Hlast. unfold cache.
    rewrite <- (take_drop_middle (zip sensorIds values) i (id, v)).
    + apply lookup_reduce_last; [done|]. intros Hin.
      apply list_elem_of_fmap in Hin as ([id' v'] & -> & Hin).
      apply list_elem_of_lookup in Hin as [j Hj].
      rewrite lookup_drop in Hj.
      apply lookup_zip_with_Some in Hj as (x & y & [= <- <-] & Hx & _).
      cbn [fst] in *. apply (Hlast (S i + j)%nat); [lia|done].
    + apply lookup_zip_with_Some. by exists id, v.
Qed.

End SensorsFacts.

(** The test of the repository on [fetchIoTSensors]: the values 50 and 100
    are fetched for the default sensors. *)
Lemma fetchIoTSensors_success_witness :
  let '(w', this', outcome) :=
    run (fetchIoTSensors default_sensorIds)
      {| loader := []; sensors_api := [Fulfilled [50%float; 100%float]];
         storage := []; received := [] |} demo_nexus in
  exists cache : Reading,
    outcome = Resolved cache
    /\ iotDataCache this' = cache
    /\ status_iotCache (getNexusStatus this') = cache
    /\ emitted this' = emitted demo_nexus ++ [iotDataUpdated cache]
    /\ received w'
       = [] ++ [axios_get_called
                  (map (fun id => "https://iot-api.pi-nexus.com/" +:+ id)
                     default_sensorIds)]
    /\ (forall id,
          id ∉ default_sensorIds \/ id = "__proto__" -> cache !! id = None)
    /\ (forall i id v,
          default_sensorIds !! i = Some id ->
          [50%float; 100%float] !! i = Some v ->
          id <> "__proto__" ->
          (forall j, (i < j)%nat -> default_sensorIds !! j <> Some id) ->
          cache !! id = Some v).
Proof.
  apply (fetchIoTSensors_success default_sensorIds [50%float; 100%float]
           {| loader := []; sensors_api := [Fulfilled [50%float; 100%float]];
              storage := []; received := [] |} demo_nexus).
  - reflexivity.
  - intros _. by exists [].
Defined.

(** A sensor named [__proto__] is asked for and is missing from the cache;
    an empty list asks for nothing. *)
Example fetchIoTSensors_proto :
  let '(w', this', outcome) :=
    run (fetchIoTSensors ["energy_price"; "__proto__"])
      {| loader := []; sensors_api := [Fulfilled [50%float; 7%float]];
         storage := []; received := [] |} demo_nexus in
  iotDataCache this' !! "energy_price" = Some 50%float
  /\ iotDataCache this' !! "__proto__" = None
  /\ size (iotDataCache this') = 1%nat
  /\ length (received w') = 1%nat.
Proof. vm_compute. repeat split; reflexivity. Qed.

Example fetchIoTSensors_empty :
  let '(w', this', outcome) :=
    run (fetchIoTSensors [])
      {| loader := []; sensors_api := []; storage := []; received := [] |}
      demo_nexus in
  outcome = Resolved ∅ /\ received w' = []
  /\ emitted this' = [iotDataUpdated ∅].
Proof. vm_compute. repeat split; reflexivity. Qed.

Example fetchIoTSensors_test :
  let '(w', this', outcome) :=
    run (fetchIoTSensors default_sensorIds)
      {| loader := []; sensors_api := [Fulfilled [50%float; 100%float]];
         storage := []; received := [] |} demo_nexus in
  match outcome with
  | Resolved data =>
      data !! "energy_price" = Some 50%float
      /\ data !! "commodity_index" = Some 100%float
  | _ => False
  end
  /\ console this'
     = [console_log "IoT data fetched:";
        console_log "Pegging adjusted by IoT: ${adjustment}"].
Proof. vm_compute. repeat split; reflexivity. Qed.

(* ================================================================== *)
(** * What the calls of the hub keep *)
(* ================================================================== *)

(** The events that the methods of the hub emit: all but [peggingAdjusted],
    which [IoTIntegration] emits through the hub. *)
Definition emitted_by_hub (ev : Event) : bool :=
  match ev with
  | peggingAdjusted _ _ => false
  | _ => true
  end.

(** A property of the hub object that the updates made by the methods of
    the hub keep: a line printed, a model assigned after a load, the cache
    replaced, an event of the hub emitted. *)
Definition kept_by_updates (I : GodHeadNexus -> Prop) : Prop :=
  (forall line n, I n -> I (print line n))
  /\ (forall m n, I n -> I (set_model (Some m) n))
  /\ (forall c n, I n -> I (set_iotDataCache c n))
  /\ (forall ev n, emitted_by_hub ev = true -> I n -> I (emit ev n)).

Lemma model_emit ev n : model (emit ev n) = model n.
Proof.
  destruct ev; cbn; try done.
  unfold handleMarketAlert. by destruct (_ <? _)%float.
Qed.

Section HubInvariants.
Context `{NodeRuntime}.

Ltac kept_update HI :=
  let n := fresh "n" in
  let Hn := fresh "Hn" in
  let Hprint := fresh "Hprint" in
  let Hmodel := fresh "Hmodel" in
  let Hcache := fresh "Hcache" in
  let Hemit := fresh "Hemit" in
  intros n Hn; pose proof HI as (Hprint & Hmodel & Hcache & Hemit);
  first [ by apply Hprint | by apply Hmodel | by apply Hcache
        | by apply Hemit ].

Ltac updates_step HI :=
  match goal with
  | |- keeps ?I (modify ?f) => apply (keeps_modify I f); kept_update HI
  | |- keeps ?I get => apply (keeps_get I)
  | |- keeps ?I (mret ?a) => apply (keeps_mret I a)
  | |- keeps ?I (await ?q) => apply (keeps_await I q)
  | |- keeps ?I (of_result ?r) => apply (keeps_of_result I r)
  | |- keeps ?I (try_catch ?t ?h) => apply (keeps_try_catch I t h)
  | |- keeps ?I (?t ≫= ?f) => apply (keeps_bind I t f)
  | |- forall _, keeps _ _ => intro
  end.

Lemma loadModel_updates I : kept_by_updates I -> keeps I loadModel.
Proof. intros HI. unfold loadModel. repeat updates_step HI. Qed.

Lemma predictAdjustment_updates I marketData :
  kept_by_updates I -> keeps I (predictAdjustment marketData).
Proof.
  intros HI. unfold predictAdjustment.
  updates_step HI; [updates_step HI|]. intros this.
  updates_step HI.
  { destruct (model this); [updates_step HI|by apply loadModel_updates]. }
  intros _. updates_step HI; [updates_step HI|]. intros this'.
  destruct (model this') as [m|]; [|done].
  repeat updates_step HI.
Qed.

(** Every update that a method of the hub makes is one of those of
    [kept_by_updates]. *)
Lemma hub_task_updates I c : kept_by_updates I -> keeps I (hub_task c).
Proof.
  intros HI. destruct c; cbn [hub_task].
  - by apply loadModel_updates.
  - updates_step HI; [by apply predictAdjustment_updates|].
    repeat updates_step HI.
  - unfold fetchIoTSensors. destruct sensorIds; repeat updates_step HI.
  - unfold triggerFederatedTraining.
    destruct contributionData; repeat updates_step HI; done.
  - updates_step HI; [|repeat updates_step HI]. unfold queryContractOracle.
    updates_step HI; [by apply predictAdjustment_updates|].
    repeat updates_step HI.
Qed.

Lemma run_calls_updates I calls w this :
  kept_by_updates I -> I this -> I (run_calls calls w this).2.
Proof.
  intros HI. revert w this.
  induction calls as [|c rest IH]; intros w this Hthis; [done|].
  cbn [run_calls].
  pose proof (keeps_run I (hub_task c) w this (hub_task_updates I c HI) Hthis)
    as Hstep.
  destruct (run (hub_task c) w this) as [[w' this'] outcome].
  by apply IH.
Qed.

Lemma hub_steps_updates I st st' :
  kept_by_updates I -> rtc hub_step st st' ->
  I st.1 /\ Forall (keeps I) st.2 -> I st'.1 /\ Forall (keeps I) st'.2.
Proof.
  intros HI Hsteps.
  induction Hsteps as [st|st st' st'' Hstep _ IH]; [done|].
  intros [Hthis Hcalls]. apply IH.
  destruct Hstep as [c this calls|X q k a this before after];
    cbn [fst snd] in *.
  - destruct (keeps_start I (hub_task c) this (hub_task_updates I c HI) Hthis)
      as [Hthis' Hrest].
    split; [done|]. apply Forall_app. split; [done|]. by constructor.
  - apply Forall_app in Hcalls as [Hbefore Hafter].
    apply Forall_cons in Hafter as [Hk Hafter]. cbn [keeps] in Hk.
    destruct (keeps_start I (k a) this (Hk a) Hthis) as [Hthis' Hrest].
    split; [done|]. apply Forall_app. split; [done|]. by constructor.
Qed.

Lemma model_loaded_kept : kept_by_updates (fun n => is_Some (model n)).
Proof.
  repeat split; try done.
  intros ev n _. by rewrite model_emit.
Qed.

(** X7. Once the model is loaded it stays loaded: after every sequence of
    calls of the methods of the hub, whatever the remote services answer,
    [getNexusStatus] reports [modelLoaded: true], when each call ends before
    the next begins and when the calls overlap. A load that fails later
    does not remove the model. *)
Theorem model_stays_loaded this :
  is_Some (model this) ->
  (forall calls w,
     status_modelLoaded (getNexusStatus (run_calls calls w this).2) = true)
  /\ (forall this' calls,
        rtc hub_step (this, []) (this', calls) ->
        status_modelLoaded (getNexusStatus this') = true).
Proof.
  intros Hm. split.
  - intros calls w. cbn [getNexusStatus status_modelLoaded].
    apply bool_decide_eq_true.
    by apply (run_calls_updates (fun n => is_Some (model n)) calls w this
                model_loaded_kept).
  - intros this' calls Hsteps. cbn [getNexusStatus status_modelLoaded].
    apply bool_decide_eq_true.
    apply (hub_steps_updates (fun n => is_Some (model n)) _ _
             model_loaded_kept) in Hsteps as [Hthis' _]; [done|].
    by split; [|constructor].
Qed.

(** The pegs published among the events of a hub. *)
Lemma pegs_kept (pegs : list float) :
  kept_by_updates
    (fun n => omap (fun ev => match ev with
                              | peggingAdjusted p _ => Some p
                              | _ => None
                              end) (emitted n) = pegs).
Proof.
  repeat split; try done.
  intros ev n Hev <-. rewrite emitted_emit, omap_app.
  destruct ev; try done; cbn [omap]; by rewrite app_nil_r.
Qed.

(** X8. No method of the hub publishes a peg: after every sequence of calls
    of [loadModel], [predictAdjustment], [fetchIoTSensors],
    [triggerFederatedTraining] and [queryContractOracle] on the hub of an
    integration, the pegs published are those published before, when each
    call ends before the next begins and when the calls overlap. The
    adjustment that [adjustPegging] computes from the sensors fetched is
    printed and goes nowhere else. *)
Theorem hub_publishes_no_peg this :
  (forall calls w,
     published_pegs (set_nexus (run_calls calls w (nexus this)).2 this)
     = published_pegs this)
  /\ (forall n' calls,
        rtc hub_step (nexus this, []) (n', calls) ->
        published_pegs (set_nexus n' this) = published_pegs this).
Proof.
  split.
  - intros calls w. unfold published_pegs. cbn [nexus set_nexus].
    by apply (run_calls_updates _ calls w (nexus this) (pegs_kept _)).
  - intros n' calls Hsteps. unfold published_pegs. cbn [nexus set_nexus].
    apply (hub_steps_updates _ _ _ (pegs_kept (published_pegs this)))
      in Hsteps as [Hn' _]; [done|].
    by split; [|constructor].
Qed.

End HubInvariants.

Lemma model_stays_loaded_witness :
  status_modelLoaded
    (getNexusStatus
       (run_calls [call_loadModel; call_fetchIoTSensors default_sensorIds]
          (services [Rejected load_failed] []) demo_nexus).2) = true.
Proof.
  apply (proj1 (model_stays_loaded demo_nexus (mk_is_Some _ _ eq_refl))).
Defined.

(* ================================================================== *)
(** * The model is loaded when it is needed *)
(* ================================================================== *)

(** The hub after the lines of [loadModel] that follow a load that
    succeeded. *)
Definition after_loading (m : Model) (n : GodHeadNexus) : GodHeadNexus :=
  emit modelLoaded
    (print (console_log "GodHead Nexus AI model loaded from IPFS.")
       (set_model (Some m) n)).

Section LoadingFacts.
Context `{NodeRuntime}.

(** A prediction on a hub without model, when the loader answers with a
    model: the model is loaded, kept, and predicts. *)
Lemma run_predictAdjustment_loading marketData w this m rest :
  model this = None ->
  loader w = Fulfilled m :: rest ->
  run (predictAdjustment marketData) w this
  = match predict m marketData with
    | Ok adjustment =>
        (after_load w,
         after_prediction adjustment marketData (after_loading m this),
         Resolved adjustment)
    | Thrown e => (after_load w, after_loading m this, Failed e)
    end.
Proof.
  intros Hm Hw. unfold predictAdjustment.
  rewrite run_bind. cbn [run get]. rewrite Hm.
  rewrite run_bind, run_loadModel.
  unfold serve. cbn [next_answer]. rewrite Hw. cbn [head tail].
  fold (after_loading m this).
  rewrite run_bind. cbn [run get].
  replace (model (after_loading m this)) with (Some m)
    by (unfold after_loading; by rewrite model_emit).
  cbn [loader sensors_api storage received remote_call].
  unfold after_load. rewrite Hw. cbn [tail].
  rewrite run_bind. destruct (predict m marketData) as [adjustment|e]; [|done].
  cbn [of_result run]. rewrite run_bind. cbn [run modify].
  rewrite run_bind. by cbn [run modify mret task_ret].
Qed.

(** A prediction on a hub whose model is loaded leaves the remote services
    and the model alone, whether the model predicts or throws. *)
Lemma run_prediction_loaded marketData w this m :
  model this = Some m ->
  let '(w', this', _) :=
    run (hub_task (call_predictAdjustment marketData)) w this in
  w' = w /\ model this' = Some m.
Proof.
  intros Hm. cbn [hub_task]. rewrite run_bind.
  rewrite (run_predictAdjustment_loaded _ _ _ m Hm).
  destruct (predict m marketData) as [adjustment|e]; cbn [run mret task_ret];
    [|done].
  split; [done|]. by rewrite model_emit.
Qed.

Lemma run_predictions_loaded calls w this m :
  model this = Some m ->
  let '(w', this') := run_calls (map call_predictAdjustment calls) w this in
  w' = w /\ model this' = Some m.
Proof.
  revert w this. induction calls as [|marketData calls IH]; intros w this Hm;
    [done|].
  cbn [map run_calls].
  pose proof (run_prediction_loaded marketData w this m Hm) as Hrun.
  destruct (run (hub_task (call_predictAdjustment marketData)) w this)
    as [[w' this'] outcome].
  destruct Hrun as [-> Hm']. by apply IH.
Qed.

(** X9. Predictions asked one after the other, each after the one before
    has ended, load the model once: on a hub without model whose loader
    answers with a model, the first prediction loads it and the later ones
    use it, so that the one remote call of the whole sequence is this load,
    whether the model predicts or throws. *)
Theorem sequential_predictions_load_once first others w this m rest :
  model this = None ->
  loader w = Fulfilled m :: rest ->
  let '(w', this') :=
    run_calls (map call_predictAdjustment (first :: others)) w this in
  w' = after_load w
  /\ received w' = received w ++ [loadLayersModel_called modelUrl]
  /\ model this' = Some m.
Proof.
  intros Hm Hw. cbn [map run_calls hub_task]. rewrite run_bind.
  rewrite (run_predictAdjustment_loading _ _ _ m rest Hm Hw).
  assert (model (after_loading m this) = Some m) as Hloaded
    by (unfold after_loading; by rewrite model_emit).
  destruct (predict m first) as [adjustment|e]; cbn [run mret task_ret].
  - pose proof (run_predictions_loaded others (after_load w)
                  (after_prediction adjustment first (after_loading m this)) m)
      as Hrest.
    destruct (run_calls _ _ _) as [w' this'].
    destruct Hrest as [-> ->]; [|done].
    unfold after_prediction. by rewrite model_emit.
  - pose proof (run_predictions_loaded others (after_load w)
                  (after_loading m this) m Hloaded) as Hrest.
    destruct (run_calls _ _ _) as [w' this']. by destruct Hrest as [-> ->].
Qed.

(** X10. [new GodHeadNexus(key)] returns a hub without model, with the load
    that the constructor started in flight. When this load succeeds, the
    model is assigned and [modelLoaded] is emitted, whose listener prints
    that the hub is ready; when it fails, the failure is printed and
    nothing else changes: the hub stays without model and no error leaves
    the constructor or its load. *)
Theorem construct_load key :
  let '(this, load) := construct key in
  this = new_GodHeadNexus key
  /\ status_modelLoaded (getNexusStatus this) = false
  /\ awaits_load load = true
  /\ (forall m,
        let '(this', after) := settle_load (Fulfilled m) load this in
        after = Return tt
        /\ status_modelLoaded (getNexusStatus this') = true
        /\ model this' = Some m
        /\ emitted this' = [modelLoaded]
        /\ console this'
           = [console_log "GodHead Nexus AI model loaded from IPFS.";
              console_log "Nexus ready for predictions."])
  /\ (forall e,
        let '(this', after) := settle_load (Rejected e) load this in
        after = Return tt
        /\ this' = print (console_error "Failed to load model:" e)
                     (new_GodHeadNexus key)
        /\ status_modelLoaded (getNexusStatus this') = false).
Proof. repeat split. Qed.

(** X11. [queryContractOracle] is the prediction from the vector
    [[314159, 1000]]: it ends as this prediction ends, with the same value
    or the same error, after the same remote calls and the same events;
    it adds one line to the console when the prediction succeeds. *)
Theorem queryContractOracle_is_prediction w this :
  let '(w1, this1, outcome1) :=
    run (predictAdjustment [314159%float; 1000%float]) w this in
  let '(w2, this2, outcome2) := run queryContractOracle w this in
  outcome2 = outcome1
  /\ w2 = w1
  /\ emitted this2 = emitted this1
  /\ model this2 = model this1
  /\ console this2
     = console this1
       ++ match outcome1 with
          | Resolved _ => [console_log "Oracle query result: ${adjustment}"]
          | _ => []
          end.
Proof.
  unfold queryContractOracle. rewrite run_bind.
  destruct (run (predictAdjustment _) w this) as [[w1 this1] [a|e|]];
    [|by rewrite app_nil_r..].
  rewrite run_bind. by cbn [run modify mret task_ret].
Qed.

(** X12. A contribution that is an object is handed to the storage
    encrypted under the key of the hub, and what the storage receives
    decrypts, under this key, to the JSON text of the contribution; when
    the storage resolves, its [cid] is returned and [trainingTriggered] is
    emitted with this [cid] and the contribution. *)
Theorem triggerFederatedTraining_stores_blob fields w this cid rest :
  well_formed (JSON_stringify (JsObject fields)) = true ->
  storage w = Fulfilled cid :: rest ->
  let '(w', this', outcome) :=
    run (triggerFederatedTraining (JsObject fields)) w this in
  exists blob,
    received w' = received w ++ [ipfs_add_called blob]
    /\ quantumDecrypt (quantumKey this) blob
       = Ok (JSON_stringify (JsObject fields))
    /\ outcome = Resolved cid
    /\ emitted this' = emitted this ++ [trainingTriggered cid (JsObject fields)].
Proof.
  intros Hwf Hw. rewrite run_triggerFederatedTraining by done.
  unfold serve. cbn [next_answer remote_call]. rewrite Hw. cbn [head tail].
  eexists. split; [done|]. split.
  - rewrite quantumDecrypt_quantumEncrypt_utf8. by rewrite utf8_decode_encode.
  - split; [done|]. unfold after_training.
    by rewrite emitted_emit, emitted_print.
Qed.

End LoadingFacts.

Lemma sequential_predictions_load_once_witness :
  let '(w', this') :=
    run_calls (map call_predictAdjustment
                 [[314159%float; 1000%float]; [1%float]; [2%float]])
      (services [Fulfilled demo_model] []) (new_GodHeadNexus demo_key) in
  w' = after_load (services [Fulfilled demo_model] [])
  /\ received w'
     = received (services [Fulfilled demo_model] [])
       ++ [loadLayersModel_called modelUrl]
  /\ model this' = Some demo_model.
Proof.
  apply (sequential_predictions_load_once [314159%float; 1000%float]
           [[1%float]; [2%float]] (services [Fulfilled demo_model] [])
           (new_GodHeadNexus demo_key) demo_model []); reflexivity.
Defined.

Lemma triggerFederatedTraining_stores_blob_witness :
  let '(w', this', outcome) :=
    run (triggerFederatedTraining
           (JsObject [("testData", JsString (js "sample"))]))
      (services [] [Fulfilled "QmContribution"]) demo_nexus in
  exists blob,
    received w'
    = received (services [] [Fulfilled "QmContribution"])
      ++ [ipfs_add_called blob]
    /\ quantumDecrypt (quantumKey demo_nexus) blob
       = Ok (JSON_stringify (JsObject [("testData", JsString (js "sample"))]))
    /\ outcome = Resolved "QmContribution"
    /\ emitted this'
       = emitted demo_nexus
         ++ [trainingTriggered "QmContribution"
               (JsObject [("testData", JsString (js "sample"))])].
Proof.
  apply (triggerFederatedTraining_stores_blob
           [("testData", JsString (js "sample"))]
           (services [] [Fulfilled "QmContribution"]) demo_nexus
           "QmContribution" []); reflexivity.
Defined.

(* ================================================================== *)
(** * The cache of readings *)
(* ================================================================== *)

(** A method of a member object changes nothing but this member. *)
Lemma keeps_on_member {S T R} (I : S -> Prop) (read : S -> T)
    (write : T -> S -> S) (t : Task T R) :
  (forall x s, I s -> I (write x s)) -> keeps I (on_member read write t).
Proof.
  intros Hw.
  induction t as [a|e|k IH|g k IH|X q k IH]; cbn [on_member keeps]; auto.
Qed.

(** What [filter(v => v)] drops: a reading that has [0] or [NaN] for the
    field, or has no property of this name and inherits none. *)
Definition no_value (field : string) (d : SensorEntry) : Prop :=
  match raw d !! field with
  | Some v => falsy_number v = true
  | None => inherited field = false
  end.

Lemma truthy_field_no_value field d :
  no_value field d -> truthy_field field d = None.
Proof.
  unfold no_value, truthy_field. destruct (raw d !! field) as [v|];
    by intros ->.
Qed.

Lemma calculateAverage_no_values entries field :
  Forall (no_value field) entries -> calculateAverage entries field = 0%float.
Proof.
  intros Hall. unfold calculateAverage.
  replace (omap (truthy_field field) entries) with (@nil FieldValue); [done|].
  induction Hall as [|d rest Hd _ IH]; [done|].
  cbn [omap list_omap]. by rewrite truthy_field_no_value.
Qed.

(** The readings that have the numbers [values] for the field, none of
    them [0] or [NaN]. *)
Definition have_values (field : string) (entries : list SensorEntry)
  (values : list float) : Prop :=
  Forall2 (fun d v => raw d !! field = Some v /\ falsy_number v = false)
    entries values.

Lemma omap_have_values field entries values :
  have_values field entries values ->
  omap (truthy_field field) entries = number_value <$> values.
Proof.
  induction 1 as [|d v entries values [Hv Hfalsy] _ IH]; [done|].
  cbn [omap list_omap fmap list_fmap]. unfold truthy_field at 1.
  by rewrite Hv, Hfalsy, IH.
Qed.

Lemma numbers_number_value values :
  numbers (number_value <$> values) = Some values.
Proof.
  induction values as [|v values IH]; [done|].
  cbn [fmap list_fmap numbers]. fold (fmap number_value values).
  by rewrite IH.
Qed.

Lemma numbers_inherited before after :
  numbers (before ++ inherited_value :: after) = None.
Proof.
  induction before as [|[v|] before IH]; cbn [app numbers]; [done| |done].
  by rewrite IH.
Qed.

Section CacheFacts.
Context `{NodeRuntime}.

(** The entry that [processSensorData] writes for a reading. *)
Definition entry_of (this : IoTIntegration) (now0 : float) (data : Reading)
  : SensorEntry :=
  {| raw := data;
     encrypted := quantumEncrypt (iot_quantumKey this)
                    (JSON_stringify (reading_value data));
     timestamp := now0 |}.

(** After the entry is written, nothing in [processSensorData] touches the
    cache or the key of the integration. *)
Lemma run_processSensorData_cache now0 now1 topic data w this :
  let '(_, this', _) := run (processSensorData now0 now1 topic data) w this in
  sensorData this' = <[topic := entry_of this now0 data]> (sensorData this)
  /\ iot_quantumKey this' = iot_quantumKey this.
Proof.
  unfold processSensorData. rewrite run_bind. cbn [run get].
  rewrite run_bind. cbn [run modify].
  fold (entry_of this now0 data).
  set (I := fun s : IoTIntegration =>
              sensorData s = <[topic := entry_of this now0 data]> (sensorData this)
              /\ iot_quantumKey s = iot_quantumKey this).
  match goal with
  | |- context [run ?t w ?s] =>
      assert (keeps I t) as Hkeeps; [|pose proof (keeps_run I t w s Hkeeps) as Hrun]
  end.
  { assert (forall R (t : Task GodHeadNexus R), keeps I (on_nexus t)) as Hon.
    { intros R t. apply keeps_on_member. by intros n s [? ?]. }
    apply keeps_bind; [apply Hon|]. intros adjustment.
    apply keeps_bind.
    { unfold adjustPiPegging. apply keeps_bind; [apply Hon|]. intros _.
      apply Hon. }
    intros _. apply keeps_bind; [|intros _; apply Hon].
    destruct (field_gt data "energyPrice" 50); [|done].
    apply keeps_bind; [apply Hon|done]. }
  destruct (run _ w _) as [[w' this'] outcome].
  apply Hrun. by split.
Qed.

(** X13. [processSensorData] caches the reading before it asks for a
    prediction: for a topic other than [__proto__], however the call ends (the prediction, the storage or the
    model load may fail or never answer), the cache holds for the topic the
    reading, its blob under the key of the integration and the time, in
    place of what it held for this topic, and the other topics are as they
    were. The blob decrypts, under this key, to the JSON text of the
    reading. *)
Theorem processSensorData_caches_reading now0 now1 topic data w this :
  topic <> "__proto__" ->
  let '(_, this', _) := run (processSensorData now0 now1 topic data) w this in
  sensorData this' !! topic = Some (entry_of this now0 data)
  /\ raw (entry_of this now0 data) = data
  /\ (forall other, other <> topic ->
        sensorData this' !! other = sensorData this !! other)
  /\ (well_formed (JSON_stringify (reading_value data)) = true ->
      quantumDecrypt (iot_quantumKey this') (encrypted (entry_of this now0 data))
      = Ok (JSON_stringify (reading_value data))).
Proof.
  intros _.
  pose proof (run_processSensorData_cache now0 now1 topic data w this) as Hrun.
  destruct (run _ w this) as [[w' this'] outcome].
  destruct Hrun as [-> ->].
  split; [by rewrite lookup_insert_eq|]. split; [done|]. split.
  - intros other Hne. by rewrite lookup_insert_ne.
  - intros Hwf. cbn [encrypted entry_of].
    rewrite quantumDecrypt_quantumEncrypt_utf8. by rewrite utf8_decode_encode.
Qed.

(** X14. [getAggregatedData] counts topics, not readings: a reading on a
    topic that is cached already leaves [sensorCount] as it was, a reading
    on a new topic (other than [__proto__]) adds one, and [latestData] has
    the reading for its topic. *)
Theorem getAggregatedData_counts_topics
    now0 now1 topic data w this entries entries' :
  topic <> "__proto__" ->
  let '(_, this', _) := run (processSensorData now0 now1 topic data) w this in
  sensorCount (getAggregatedData entries' this')
  = (if sensorData this !! topic is Some _
     then sensorCount (getAggregatedData entries this)
     else S (sensorCount (getAggregatedData entries this)))
  /\ raw <$> latestData (getAggregatedData entries' this') !! topic
     = Some data.
Proof.
  intros _.
  pose proof (run_processSensorData_cache now0 now1 topic data w this) as Hrun.
  destruct (run _ w this) as [[w' this'] outcome].
  destruct Hrun as [Hcache _].
  cbn [getAggregatedData sensorCount latestData]. rewrite Hcache. split.
  - destruct (sensorData this !! topic) as [old|] eqn:Hold.
    + rewrite <- (insert_delete_id (sensorData this) topic old Hold) at 2.
      rewrite <- (insert_delete_eq (sensorData this)).
      rewrite !map_size_insert_None by apply lookup_delete_eq. done.
    + by rewrite map_size_insert_None.
  - by rewrite lookup_insert_eq.
Qed.

End CacheFacts.

(** X15. [calculateAverage] is the sum, from the first cached reading to
    the last, of the values that the readings have for the field, divided
    by their number. A reading that has [0] or [NaN] for the field, or no
    property of this name, has no part in it, wherever it stands: it is
    left out of the sum and of the count, and the average is [0] when no
    reading is left. For a name that objects inherit ([constructor], say),
    a reading without a property of its own under this name makes the
    average [NaN]. *)
Theorem calculateAverage_values field :
  (forall before d after,
     no_value field d ->
     calculateAverage (before ++ d :: after) field
     = calculateAverage (before ++ after) field)
  /\ (forall entries first others,
        have_values field entries (first :: others) ->
        calculateAverage entries field
        = (foldl PrimFloat.add first others
           / float_of_nat (S (length others)))%float)
  /\ (forall before d after,
        inherited field = true -> raw d !! field = None ->
        calculateAverage (before ++ d :: after) field = nan)
  /\ (forall this entries,
        Object_values this entries ->
        (forall topic d, sensorData this !! topic = Some d ->
                         no_value "energyPrice" d) ->
        averageEnergyPrice (getAggregatedData entries this) = 0%float).
Proof.
  split; [|split; [|split]].
  - intros before d after Hd. unfold calculateAverage.
    rewrite !omap_app. cbn [omap list_omap].
    by rewrite truthy_field_no_value.
  - intros entries first others Hvalues. unfold calculateAverage.
    rewrite (omap_have_values _ _ _ Hvalues), numbers_number_value.
    cbn [fmap list_fmap length]. by rewrite length_fmap.
  - intros before d after Hfield Hd.
    assert (truthy_field field d = Some inherited_value) as Ht
      by (unfold truthy_field; by rewrite Hd, Hfield).
    unfold calculateAverage. rewrite omap_app. cbn [omap list_omap].
    rewrite Ht, numbers_inherited.
    by destruct (omap (truthy_field field) before).
  - intros this entries Hentries Hall. cbn [getAggregatedData averageEnergyPrice].
    apply calculateAverage_no_values. unfold Object_values in Hentries.
    rewrite Hentries. apply Forall_fmap, Forall_forall.
    intros [topic d] Hin%elem_of_map_to_list. cbn. by apply (Hall topic).
Qed.

(* ================================================================== *)
(** * Readings that cannot be predicted from *)
(* ================================================================== *)

(** The contents handed to the storage are those of the [ipfs.add] calls
    received. *)
Lemma stored_received_load w url :
  stored {| loader := tail (loader w); sensors_api := sensors_api w;
            storage := storage w;
            received := received w ++ [loadLayersModel_called url] |}
  = stored w.
Proof.
  unfold stored. cbn [received]. rewrite omap_app.
  cbn [omap list_omap]. by rewrite app_nil_r.
Qed.

Section PredictionFailure.
Context `{NodeRuntime}.

(** A prediction calls no service but the loader. *)
Lemma stored_run_predictAdjustment marketData w n :
  stored (run (predictAdjustment marketData) w n).1.1 = stored w.
Proof.
  destruct (model n) as [m|] eqn:Hm.
  - rewrite (run_predictAdjustment_loaded _ _ _ m Hm).
    by destruct (predict m marketData).
  - unfold predictAdjustment. rewrite run_bind. cbn [run get]. rewrite Hm.
    rewrite run_bind, run_loadModel. unfold serve. cbn [next_answer].
    cbn [loader sensors_api storage received remote_call].
    destruct (head (loader w)) as [[m|e]|]; cbn [fst];
      [| |apply stored_received_load].
    + rewrite run_bind. cbn [run get]. rewrite model_emit.
      cbn [model print set_model].
      destruct (predict m marketData) as [adjustment|e0];
        cbn [of_result bind mbind task_bind run modify mret task_ret fst];
        apply stored_received_load.
    + rewrite run_bind. cbn [run get model print]. rewrite Hm.
      cbn [run fst]. apply stored_received_load.
Qed.

(** X16. When the prediction that [processSensorData] asks for fails (the
    model throws, or there is no model and its load fails), the call is
    rejected with the error of the prediction: no peg is published, nothing
    is handed to the storage, and the reading stays in the cache. *)
Theorem processSensorData_prediction_failure now0 now1 topic data w this e :
  (run (predictAdjustment (features now1 data)) w (nexus this)).2 = Failed e ->
  let '(w', this', outcome) :=
    run (processSensorData now0 now1 topic data) w this in
  outcome = Failed e
  /\ published_pegs this' = published_pegs this
  /\ stored w' = stored w
  /\ raw <$> sensorData this' !! topic = Some data.
Proof.
  intros Hfail.
  pose proof (run_processSensorData_cache now0 now1 topic data w this)
    as Hcache.
  pose proof (stored_run_predictAdjustment (features now1 data) w (nexus this))
    as Hstored.
  pose proof (keeps_run _ (predictAdjustment (features now1 data)) w
                (nexus this)
                (predictAdjustment_updates _ _
                   (pegs_kept (published_pegs this))) eq_refl) as Hpegs.
  revert Hcache. unfold processSensorData. rewrite run_bind. cbn [run get].
  rewrite run_bind. cbn [run modify].
  rewrite run_bind, run_on_nexus. cbn [nexus set_sensorData].
  destruct (run (predictAdjustment _) w (nexus this))
    as [[w1 n1] outcome1].
  cbn [fst snd] in *. subst outcome1. intros [Hcache _].
  split; [done|]. split; [|split; [done|]].
  - unfold published_pegs. by cbn [nexus set_nexus].
  - cbn [sensorData set_nexus set_sensorData]. by rewrite lookup_insert_eq.
Qed.

End PredictionFailure.

Lemma processSensorData_prediction_failure_witness :
  let '(w', this', outcome) :=
    run (processSensorData 1700000000000 1700000000000 "pi/sensors/energy"
           reading_energyPrice_60)
      (services [Rejected load_failed] [Fulfilled "QmContribution"])
      (new_IoTIntegration (new_GodHeadNexus demo_key) demo_key) in
  outcome = Failed (ERR_NULL_PROPERTY "predict")
  /\ published_pegs this'
     = published_pegs
         (new_IoTIntegration (new_GodHeadNexus demo_key) demo_key)
  /\ stored w'
     = stored (services [Rejected load_failed] [Fulfilled "QmContribution"])
  /\ raw <$> sensorData this' !! "pi/sensors/energy"
     = Some reading_energyPrice_60.
Proof.
  apply (processSensorData_prediction_failure
           1700000000000 1700000000000 "pi/sensors/energy"
           reading_energyPrice_60
           (services [Rejected load_failed] [Fulfilled "QmContribution"])
           (new_IoTIntegration (new_GodHeadNexus demo_key) demo_key)
           (ERR_NULL_PROPERTY "predict")).
  vm_compute. reflexivity.
Defined.

(* ================================================================== *)
(** * The vector predicted from *)
(* ================================================================== *)

Lemma falsy_number_is_nan x :
  falsy_number x = false -> PrimFloat.is_nan x = false.
Proof. unfold falsy_number. by intros [_ ?]%orb_false_elim. Qed.

(** [data.field || dflt] is a truthy number of the reading or the
    default. *)
Lemma field_or_cases data field dflt :
  field_or data field dflt = dflt
  \/ falsy_number (field_or data field dflt) = false.
Proof.
  unfold field_or. destruct (data !! field) as [v|]; [|by left].
  destruct (falsy_number v) eqn:Hv; [by left|by right].
Qed.

Lemma field_or_is_nan data field dflt :
  PrimFloat.is_nan dflt = false ->
  PrimFloat.is_nan (field_or data field dflt) = false.
Proof.
  intros Hd. destruct (field_or_cases data field dflt) as [->|Hv]; [done|].
  by apply falsy_number_is_nan.
Qed.

(** The fields of the reading that [processSensorData] predicts from, in
    the order of the vector, each with the default that stands for it when
    it is absent or falsy ([now] for [Date.now()]). *)
Definition feature_fields (now : float) : list (string * float) :=
  [("price", 314159%float); ("volume", 1000%float); ("timestamp", now);
   ("energyPrice", 0%float); ("commodityIndex", 0%float)].

Lemma features_feature_fields now data :
  features now data
  = (fun '(field, dflt) => field_or data field dflt) <$> feature_fields now.
Proof. done. Qed.

(** X17. The vector that [processSensorData] has the model predict from has
    five numbers, for [price], [volume], [timestamp], [energyPrice] and
    [commodityIndex] in this order: the value of the field in the reading
    when it is a number other than [0] and [NaN], and else (the field is
    absent, [0] or [NaN]) its default, 314159, 1000, the time of the call,
    0 and 0. So a reading that reports the price [0] is predicted from as
    if it reported 314159, and no [NaN] reaches the model when the clock
    gives none. *)
Theorem features_defaults now data :
  length (features now data) = 5%nat
  /\ (forall i field dflt,
        feature_fields now !! i = Some (field, dflt) ->
        (forall v, data !! field = Some v -> falsy_number v = false ->
                   features now data !! i = Some v)
        /\ (forall v, data !! field = Some v -> falsy_number v = true ->
                      features now data !! i = Some dflt)
        /\ (data !! field = None -> features now data !! i = Some dflt))
  /\ (PrimFloat.is_nan now = false ->
      Forall (fun x => PrimFloat.is_nan x = false) (features now data)).
Proof.
  split; [done|]. split.
  - intros i field dflt Hi. rewrite features_feature_fields, list_lookup_fmap, Hi.
    cbn [fmap option_fmap option_map]. unfold field_or.
    repeat split.
    + by intros v -> ->.
    + by intros v -> ->.
    + by intros ->.
  - intros Hnow. unfold features. repeat constructor; by apply field_or_is_nan.
Qed.

(** A reading that reports the price [0] and the volume 5. *)
Lemma features_defaults_witness :
  features 1700000000000 {[ "price" := 0%float; "volume" := 5%float ]}
    !! 0%nat = Some 314159%float
  /\ features 1700000000000 {[ "price" := 0%float; "volume" := 5%float ]}
       !! 1%nat = Some 5%float
  /\ features 1700000000000 {[ "price" := 0%float; "volume" := 5%float ]}
       !! 3%nat = Some 0%float.
Proof.
  pose proof (features_defaults 1700000000000
                {[ "price" := 0%float; "volume" := 5%float ]}) as (_ & W & _).
  split; [|split].
  - apply (proj1 (proj2 (W 0%nat "price" 314159%float eq_refl)) 0%float);
      reflexivity.
  - apply (proj1 (W 1%nat "volume" 1000%float eq_refl) 5%float); reflexivity.
  - apply (proj2 (proj2 (W 3%nat "energyPrice" 0%float eq_refl))).
    reflexivity.
Defined.

Example features_example :
  features 1700000000000 {[ "price" := 0%float; "volume" := 5%float ]}
  = [314159%float; 5%float; 1700000000000%float; 0%float; 0%float].
Proof. vm_compute. reflexivity. Qed.

(* ================================================================== *)
(** * Devices *)
(* ================================================================== *)

Section DeviceFacts.
Context `{NodeRuntime}.

(** X18. [registerDevice] returns before the device is stored: it has
    printed its line and changed nothing else, and the contribution
    [{ deviceId, sensorType }], encrypted under the key of the hub, is on
    its way to the storage. When the storage resolves, [trainingTriggered]
    is emitted; when it rejects, the promise that nobody holds is rejected
    and nothing is printed with [console.error]. *)
Theorem registerDevice_not_awaited deviceId sensorType this :
  let contribution := device_of deviceId sensorType in
  let blob :=
    quantumEncrypt (quantumKey (nexus this)) (JSON_stringify contribution) in
  let '(this', call) := registerDevice deviceId sensorType this in
  sensorData this' = sensorData this
  /\ emitted (nexus this') = emitted (nexus this)
  /\ console (nexus this')
     = console (nexus this)
       ++ [console_log
             "Device ${deviceId} registered for ${sensorType} sensors."]
  /\ (forall w, received (run call w this').1.1
                = received w ++ [ipfs_add_called blob])
  /\ (forall w cid rest,
        storage w = Fulfilled cid :: rest ->
        let '(_, this'', outcome) := run call w this' in
        outcome = Resolved cid
        /\ emitted (nexus this'')
           = emitted (nexus this) ++ [trainingTriggered cid contribution])
  /\ (forall w e rest,
        storage w = Rejected e :: rest ->
        let '(_, this'', outcome) := run call w this' in
        outcome = Failed e
        /\ emitted (nexus this'') = emitted (nexus this)
        /\ errors_printed (nexus this'') = errors_printed (nexus this)).
Proof.
  cbv zeta. unfold registerDevice, device_of.
  cbn -[quantumEncrypt emit print].
  split; [done|]. split; [done|]. split; [done|]. split.
  - intros w. unfold serve. cbn [next_answer remote_call].
    by destruct (head (storage w)) as [[cid|e]|].
  - split.
    + intros w cid rest Hw. unfold serve. cbn [next_answer]. rewrite Hw.
      cbn -[quantumEncrypt emit print]. split; [done|].
      by rewrite emitted_emit.
    + intros w e rest Hw. unfold serve. cbn [next_answer]. rewrite Hw.
      cbn -[quantumEncrypt emit print]. split; [done|].
      split; [done|]. apply errors_printed_print_log.
Qed.

End DeviceFacts.

Lemma registerDevice_not_awaited_witness :
  let '(this', call) :=
    registerDevice (JsString (js "sensor001")) (JsString (js "energy"))
      demo_iot in
  let '(_, this'', outcome) :=
    run call (services [] [Rejected storage_down]) this' in
  outcome = Failed storage_down
  /\ emitted (nexus this'') = emitted (nexus demo_iot)
  /\ errors_printed (nexus this'') = errors_printed (nexus demo_iot).
Proof.
  pose proof (registerDevice_not_awaited (JsString (js "sensor001"))
                (JsString (js "energy")) demo_iot) as W.
  cbv zeta in W.
  destruct (registerDevice _ _ demo_iot) as [this' call].
  destruct W as (_ & _ & _ & _ & _ & W).
  apply (W (services [] [Rejected storage_down]) storage_down []).
  reflexivity.
Defined.

(* ================================================================== *)
(** * Thresholds on doubles *)
(* ================================================================== *)

(** [Math.abs(x) > 0.01] holds when [x] is above [0.01] or below [-0.01],
    and for no other double. *)
Lemma abs_above_threshold a :
  (0.01 <? PrimFloat.abs a)%float
  = ((0.01 <? a)%float || (a <? -0.01)%float).
Proof.
  rewrite !FloatAxioms.ltb_spec, FloatAxioms.abs_spec.
  replace (FloatOps.Prim2SF 0.01)
    with (SpecFloat.S754_finite false 5764607523034235 (-59))
    by (vm_compute; reflexivity).
  replace (FloatOps.Prim2SF (-0.01))
    with (SpecFloat.S754_finite true 5764607523034235 (-59))
    by (vm_compute; reflexivity).
  destruct (FloatOps.Prim2SF a) as [s|s| |s m e].
  - destruct s; reflexivity.
  - destruct s; reflexivity.
  - reflexivity.
  - unfold SpecFloat.SFltb, SpecFloat.SFabs, SpecFloat.SFcompare.
    destruct s.
    + rewrite (Z.compare_antisym (-59) e).
      rewrite (Pos.compare_cont_antisym m 5764607523034235 Eq).
      cbn [CompOpp].
      destruct (-59 ?= e)%Z; cbn [CompOpp]; try reflexivity;
        destruct (PosDef.Pos.compare_cont Eq 5764607523034235 m);
        reflexivity.
    + by rewrite orb_false_r.
Qed.

(** A double that differs from itself is [NaN]. *)
Lemma is_nan_Prim2SF x :
  PrimFloat.is_nan x = true -> FloatOps.Prim2SF x = SpecFloat.S754_nan.
Proof.
  unfold PrimFloat.is_nan. rewrite FloatAxioms.eqb_spec.
  unfold SpecFloat.SFeqb, SpecFloat.SFcompare.
  destruct (FloatOps.Prim2SF x) as [s|s| |s m e]; try reflexivity.
  - discriminate.
  - destruct s; discriminate.
  - change (PosDef.Pos.compare_cont Eq m m) with (Pos.compare m m).
    destruct s; rewrite Z.compare_refl, Pos.compare_refl; discriminate.
Qed.

Lemma newPeg_NaN adjustment :
  PrimFloat.is_nan adjustment = true ->
  PrimFloat.is_nan (newPeg adjustment) = true.
Proof.
  intros Ha%is_nan_Prim2SF.
  assert (FloatOps.Prim2SF (newPeg adjustment) = SpecFloat.S754_nan) as Hn.
  { unfold newPeg, basePeg.
    rewrite FloatAxioms.add_spec, FloatAxioms.mul_spec, Ha.
    vm_compute. reflexivity. }
  unfold PrimFloat.is_nan. by rewrite FloatAxioms.eqb_spec, Hn.
Qed.

Section ThresholdFacts.
Context `{NodeRuntime}.

(** X19. After a prediction, the alert is printed exactly when the
    adjustment is above [0.01] or below [-0.01]: an adjustment of [0.01],
    of [-0.01] or [NaN] prints the line of the prediction and no alert. The
    alert is a line of the console and nothing else. *)
Theorem predictAdjustment_alert marketData w this m adjustment :
  model this = Some m ->
  predict m marketData = Ok adjustment ->
  let '(_, this', _) := run (predictAdjustment marketData) w this in
  console this'
  = console this
    ++ console_log
         "Nexus Prediction: Adjust PI by ${adjustment} for peg $314,159"
    :: (if (0.01 <? adjustment)%float || (adjustment <? -0.01)%float
        then [console_log
                "ALERT: Significant PI adjustment needed. Notify ecosystem."]
        else []).
Proof.
  intros Hm Hp. rewrite (run_predictAdjustment_loaded _ _ _ m Hm), Hp.
  cbn [emit]. unfold handleMarketAlert. rewrite abs_above_threshold.
  destruct (_ || _); cbn [console print record_event];
    by rewrite <- ?app_assoc.
Qed.

End ThresholdFacts.

Lemma predictAdjustment_alert_witness :
  let '(_, this', _) :=
    run (predictAdjustment [314159%float; 1000%float]) (services [] [])
      (set_model (Some {| predict := fun _ => Ok (-0.02)%float |})
         (new_GodHeadNexus demo_key)) in
  console this'
  = [] ++ [console_log
             "Nexus Prediction: Adjust PI by ${adjustment} for peg $314,159";
           console_log
             "ALERT: Significant PI adjustment needed. Notify ecosystem."].
Proof.
  apply (predictAdjustment_alert [314159%float; 1000%float] (services [] [])
           (set_model (Some {| predict := fun _ => Ok (-0.02)%float |})
              (new_GodHeadNexus demo_key))
           {| predict := fun _ => Ok (-0.02)%float |} (-0.02)%float);
    reflexivity.
Defined.

(** X20. An adjustment that is [NaN] publishes a peg that is [NaN]:
    [adjustPiPegging] checks nothing between the prediction and the event,
    whatever was published before. *)
Theorem adjustPiPegging_NaN earlier adjustment iotData this :
  PrimFloat.is_nan adjustment = true ->
  exists peg,
    current_value (adjust_all (earlier ++ [(adjustment, iotData)]) this)
    = Some peg
    /\ PrimFloat.is_nan peg = true.
Proof.
  intros Ha. exists (newPeg adjustment). split; [|by apply newPeg_NaN].
  unfold current_value. rewrite published_pegs_adjust_all, map_app.
  cbn [map fst]. by rewrite app_assoc, last_snoc.
Qed.

Lemma adjustPiPegging_NaN_witness :
  exists peg,
    current_value (adjust_all ([(0.001%float, ∅)] ++ [(nan, ∅)]) demo_iot)
    = Some peg
    /\ PrimFloat.is_nan peg = true.
Proof.
  apply (adjustPiPegging_NaN [(0.001%float, ∅)] nan ∅ demo_iot). reflexivity.
Defined.

(* ================================================================== *)
(** * What a blob tells about its plaintext *)
(* ================================================================== *)

(** The bytes of a string that continues a well-formed one are the bytes of
    the one followed by those of the continuation. *)
Lemma utf8_encode_app P Q :
  well_formed P = true -> utf8_encode (P ++ Q) = utf8_encode P ++ utf8_encode Q.
Proof.
  remember (length P) as n eqn:Hn. revert P Hn.
  induction n as [n IH] using lt_wf_ind. intros [|u rest] Hn Hwf; [done|].
  cbn [well_formed app utf8_encode] in Hwf |- *.
  destruct (is_high_surrogate u) eqn:Hhi.
  - destruct rest as [|lo rest']; [done|].
    apply andb_true_iff in Hwf as [Hlo Hwf]. cbn [app]. rewrite Hlo.
    rewrite <- app_assoc. f_equal.
    apply (IH (length rest')); [|done|done]. subst n. simpl. lia.
  - apply andb_true_iff in Hwf as [[Hlo Hu]%andb_true_iff Hwf].
    apply negb_true_iff in Hlo. rewrite Hlo.
    rewrite <- app_assoc. f_equal.
    apply (IH (length rest)); [|done|done]. subst n. simpl. lia.
Qed.

Lemma ctr_from_app stream i a b :
  ctr_from stream i (a ++ b)
  = ctr_from stream i a ++ ctr_from stream (i + length a) b.
Proof.
  revert i. induction a as [|x a IH]; intros i.
  - cbn [app ctr_from length]. by rewrite Nat.add_0_r.
  - cbn [app ctr_from length]. rewrite IH. do 3 f_equal. lia.
Qed.

Lemma toString_hex_app a b :
  toString_hex (a ++ b) = toString_hex a ++ toString_hex b.
Proof. unfold toString_hex. apply flat_map_app. Qed.

Section BlobFacts.
Context `{NodeRuntime}.

(** The ciphertext segment of the blob of [P]. *)
Definition ciphertext_segment (K P : jsstring) : jsstring :=
  nth 0 (split pipe (quantumEncrypt K P)) [].

Lemma ciphertext_segment_hex K P :
  ciphertext_segment K P = toString_hex (gcm_crypt K (utf8_encode P)).
Proof. unfold ciphertext_segment. by rewrite split_quantumEncrypt. Qed.

(** X21. Under one key, two plaintexts have the same blob exactly when they
    have the same UTF-8 bytes: two well-formed plaintexts that differ never
    share a blob, and whoever sees two blobs of one key knows whether their
    plaintexts are the same. *)
Theorem quantumEncrypt_same_blob K P1 P2 :
  (quantumEncrypt K P1 = quantumEncrypt K P2
   <-> utf8_encode P1 = utf8_encode P2)
  /\ (well_formed P1 = true -> well_formed P2 = true ->
      quantumEncrypt K P1 = quantumEncrypt K P2 -> P1 = P2).
Proof.
  assert (quantumEncrypt K P1 = quantumEncrypt K P2 ->
          utf8_encode P1 = utf8_encode P2) as Hbytes.
  { intros Heq.
    assert (ciphertext_segment K P1 = ciphertext_segment K P2) as Hct
      by (unfold ciphertext_segment; by rewrite Heq).
    rewrite !ciphertext_segment_hex in Hct.
    apply (f_equal Buffer_from_hex) in Hct.
    rewrite !Buffer_from_hex_toString_hex in Hct.
    apply (f_equal (gcm_crypt K)) in Hct.
    by rewrite !gcm_crypt_involutive in Hct. }
  split; [split; [exact Hbytes|]|].
  - intros Heq. unfold quantumEncrypt. by rewrite Heq.
  - intros Hwf1 Hwf2 Heq%Hbytes.
    rewrite <- (utf8_decode_encode P1), <- (utf8_decode_encode P2) by done.
    by rewrite Heq.
Qed.

(** X22. The key stream is the same for every call: the ciphertext of a
    text that continues a well-formed text [P] begins with the ciphertext
    of [P], so that blobs of one key show how far their plaintexts
    agree. *)
Theorem quantumEncrypt_shared_prefix K P Q :
  well_formed P = true ->
  ciphertext_segment K P `prefix_of` ciphertext_segment K (P ++ Q).
Proof.
  intros Hwf. rewrite !ciphertext_segment_hex, utf8_encode_app by done.
  unfold gcm_crypt. rewrite ctr_from_app, toString_hex_app.
  by eexists.
Qed.

End BlobFacts.

Lemma quantumEncrypt_same_blob_witness :
  js "peg" = js "pe" ++ js "g".
Proof.
  apply (proj2 (quantumEncrypt_same_blob demo_key (js "peg")
                  (js "pe" ++ js "g"))); reflexivity.
Defined.

Lemma quantumEncrypt_shared_prefix_witness :
  ciphertext_segment demo_key (js "peg")
  `prefix_of` ciphertext_segment demo_key (js "peg" ++ js " 314159").
Proof.
  apply (quantumEncrypt_shared_prefix demo_key (js "peg") (js " 314159")).
  reflexivity.
Defined.

Example ciphertext_segment_example :
  ciphertext_segment demo_key (js "peg") = js "455924"
  /\ ciphertext_segment demo_key (js "peg 314159")
     = js "4559246a62696b57584d".
Proof. split; vm_compute; reflexivity. Qed.

(* ================================================================== *)
(** * Loading again *)
(* ================================================================== *)

(** X23. [loadModel] asks the loader for the model each time it is called,
    whether or not a model is loaded: a load that succeeds replaces the
    model, and a load that fails leaves the model that was there. *)
Theorem loadModel_reloads w this :
  let '(w', this', _) := run loadModel w this in
  received w' = received w ++ [loadLayersModel_called modelUrl]
  /\ (forall m rest, loader w = Fulfilled m :: rest -> model this' = Some m)
  /\ (forall e rest, loader w = Rejected e :: rest ->
        model this' = model this /\ emitted this' = emitted this).
Proof.
  rewrite run_loadModel. unfold serve. cbn [next_answer remote_call].
  destruct (loader w) as [|[m|e] rest]; cbn [head tail];
    (split; [done|]); (split; [|done]); try done.
  intros m' rest' [= <- <-]. by rewrite model_emit.
Qed.

Lemma loadModel_reloads_witness :
  let '(w', this', _) :=
    run loadModel (services [Rejected load_failed] []) demo_nexus in
  model this' = model demo_nexus /\ emitted this' = emitted demo_nexus.
Proof.
  pose proof (loadModel_reloads (services [Rejected load_failed] [])
                demo_nexus) as W.
  destruct (run loadModel _ demo_nexus) as [[w' this'] outcome].
  destruct W as (_ & _ & W). apply (W load_failed []). reflexivity.
Defined.

(* ================================================================== *)
(** * Templates *)
(* ================================================================== *)

Lemma starts_with_app pat rest : starts_with pat (pat ++ rest) = true.
Proof.
  induction pat as [|p pat IH]; [done|].
  cbn [app starts_with]. by rewrite N.eqb_refl.
Qed.

Lemma starts_with_true pat s :
  starts_with pat s = true -> s = pat ++ drop (length pat) s.
Proof.
  revert s. induction pat as [|p pat IH]; intros [|c s]; cbn; try done.
  intros [->%N.eqb_eq Hs%IH]%andb_true_iff. by rewrite <- Hs.
Qed.

Lemma search_eq pat s :
  search pat s
  = if starts_with pat s then Some ([], drop (length pat) s)
    else match s with
         | [] => None
         | c :: s' =>
             match search pat s' with
             | Some (before, after) => Some (c :: before, after)
             | None => None
             end
         end.
Proof. by destruct s. Qed.

(** [search] finds the occurrence that no other comes before. *)
Lemma search_first pat before after :
  (forall b a, before ++ pat ++ after = b ++ pat ++ a ->
               (length before <= length b)%nat) ->
  search pat (before ++ pat ++ after) = Some (before, after).
Proof.
  induction before as [|c before IH]; intros Hfirst.
  - cbn [app]. rewrite search_eq, starts_with_app.
    by rewrite drop_app_length.
  - rewrite search_eq. cbn [app].
    destruct (starts_with pat (c :: before ++ pat ++ after)) eqn:Hstart.
    + apply starts_with_true in Hstart.
      specialize (Hfirst [] _ Hstart). cbn [length] in Hfirst. lia.
    + rewrite IH; [done|]. intros b a Heq.
      specialize (Hfirst (c :: b) a). cbn [app length] in Hfirst.
      rewrite Heq in Hfirst. specialize (Hfirst eq_refl). lia.
Qed.

Lemma search_none pat s :
  (forall b a, s <> b ++ pat ++ a) -> search pat s = None.
Proof.
  induction s as [|c s IH]; intros Hnone; rewrite search_eq.
  - destruct (starts_with pat []) eqn:Hstart; [|done].
    apply starts_with_true in Hstart. by destruct (Hnone [] _ Hstart).
  - destruct (starts_with pat (c :: s)) eqn:Hstart.
    + apply starts_with_true in Hstart. by destruct (Hnone [] _ Hstart).
    + rewrite IH; [done|]. intros b a ->. by apply (Hnone (c :: b) a).
Qed.

(** A replacement without dollar sign stands for itself. *)
Lemma GetSubstitution_plain matched before after replacement :
  dollar ∉ replacement ->
  GetSubstitution matched before after replacement = replacement.
Proof.
  induction replacement as [|c rest IH]; [done|].
  intros [Hc Hrest]%not_elem_of_cons. cbn [GetSubstitution].
  apply not_eq_sym, N.eqb_neq in Hc. rewrite Hc. by rewrite IH.
Qed.

Lemma GetSubstitution_app matched before after plain rest :
  dollar ∉ plain ->
  GetSubstitution matched before after (plain ++ rest)
  = plain ++ GetSubstitution matched before after rest.
Proof.
  induction plain as [|c plain IH]; [done|].
  intros [Hc Hplain]%not_elem_of_cons. cbn [app GetSubstitution].
  apply not_eq_sym, N.eqb_neq in Hc. rewrite Hc. by rewrite IH.
Qed.

(** X24. When the template holds the placeholder, [applyTemplate] replaces
    its first occurrence and no other, and code that holds no dollar sign
    is inserted as it is. *)
Theorem applyTemplate_inserts_code (templates : gmap string jsstring)
    templateName (before after code : jsstring) :
  templates !! templateName = Some (before ++ placeholder ++ after) ->
  (forall b a, before ++ placeholder ++ after = b ++ placeholder ++ a ->
               (length before <= length b)%nat) ->
  dollar ∉ code ->
  applyTemplate templates code templateName = Ok (before ++ code ++ after).
Proof.
  intros Ht Hfirst Hcode. unfold applyTemplate, String_replace, jsstring in *.
  rewrite Ht, search_first by done. by rewrite GetSubstitution_plain.
Qed.

(** X25. Code that holds a dollar sign is not always inserted as it is:
    [$$] becomes one dollar sign, [$&] the placeholder, [$`] the part of
    the template before the placeholder and [$'] the part after it. *)
Theorem applyTemplate_expands_dollar (templates : gmap string jsstring)
    templateName (before after code1 code2 : jsstring) :
  templates !! templateName = Some (before ++ placeholder ++ after) ->
  (forall b a, before ++ placeholder ++ after = b ++ placeholder ++ a ->
               (length before <= length b)%nat) ->
  dollar ∉ code1 -> dollar ∉ code2 ->
  applyTemplate templates (code1 ++ js "$$" ++ code2) templateName
  = Ok (before ++ (code1 ++ js "$" ++ code2) ++ after)
  /\ applyTemplate templates (code1 ++ js "$&" ++ code2) templateName
     = Ok (before ++ (code1 ++ placeholder ++ code2) ++ after)
  /\ applyTemplate templates (code1 ++ js "$`" ++ code2) templateName
     = Ok (before ++ (code1 ++ before ++ code2) ++ after)
  /\ applyTemplate templates (code1 ++ js "$'" ++ code2) templateName
     = Ok (before ++ (code1 ++ after ++ code2) ++ after).
Proof.
  intros Ht Hfirst Hcode1 Hcode2.
  unfold applyTemplate, String_replace, jsstring in *.
  rewrite Ht, search_first by done.
  repeat split; rewrite GetSubstitution_app by done;
    cbn [js list_ascii_of_string map N_of_ascii app GetSubstitution];
    by rewrite (GetSubstitution_plain _ _ _ code2).
Qed.

(** X26. When the template does not hold the placeholder, [applyTemplate]
    returns the template and the code is dropped; and a name that is not a
    template makes it throw a [TypeError]. *)
Theorem applyTemplate_without_placeholder (templates : gmap string jsstring)
    templateName (code : jsstring) :
  (forall template,
     templates !! templateName = Some template ->
     (forall b a, template <> b ++ placeholder ++ a) ->
     applyTemplate templates code templateName = Ok template)
  /\ (templates !! templateName = None ->
      exists e, applyTemplate templates code templateName = Thrown e
                /\ error_name e = "TypeError").
Proof.
  split.
  - intros template Ht Hnone.
    unfold applyTemplate, String_replace, jsstring in *.
    by rewrite Ht, search_none.
  - intros Ht. unfold applyTemplate, jsstring in *. rewrite Ht. by eexists.
Qed.

(** A template that begins with the placeholder and names it once more. *)
Definition demo_templates : gmap string jsstring :=
  {[ "staking" := placeholder ++ js " /* {{GENERATED_CODE}} */" ]}.

Lemma applyTemplate_inserts_code_witness :
  applyTemplate demo_templates (js "contract Staking {}") "staking"
  = Ok ([] ++ js "contract Staking {}" ++ js " /* {{GENERATED_CODE}} */").
Proof.
  apply (applyTemplate_inserts_code demo_templates "staking" []
           (js " /* {{GENERATED_CODE}} */") (js "contract Staking {}")).
  - reflexivity.
  - intros b a _. simpl. lia.
  - vm_compute. intros Hin. repeat (apply elem_of_cons in Hin as [Hin|Hin];
      [discriminate Hin|]). by apply elem_of_nil in Hin.
Defined.

Lemma applyTemplate_expands_dollar_witness :
  applyTemplate demo_templates (js "cost" ++ js "$&" ++ js ";") "staking"
  = Ok ([] ++ (js "cost" ++ placeholder ++ js ";")
        ++ js " /* {{GENERATED_CODE}} */").
Proof.
  apply (applyTemplate_expands_dollar demo_templates "staking" []
           (js " /* {{GENERATED_CODE}} */") (js "cost") (js ";")).
  - reflexivity.
  - intros b a _. simpl. lia.
  - vm_compute. intros Hin. repeat (apply elem_of_cons in Hin as [Hin|Hin];
      [discriminate Hin|]). by apply elem_of_nil in Hin.
  - vm_compute. intros Hin. repeat (apply elem_of_cons in Hin as [Hin|Hin];
      [discriminate Hin|]). by apply elem_of_nil in Hin.
Defined.

Lemma applyTemplate_without_placeholder_witness :
  applyTemplate {[ "dex" := js "pragma" ]} (js "contract Dex {}") "dex"
  = Ok (js "pragma").
Proof.
  apply (proj1 (applyTemplate_without_placeholder {[ "dex" := js "pragma" ]}
                  "dex" (js "contract Dex {}"))).
  - reflexivity.
  - intros b a Heq. apply (f_equal length) in Heq.
    rewrite !length_app in Heq.
    change (length (js "pragma")) with 6%nat in Heq.
    change (length placeholder) with 18%nat in Heq. lia.
Defined.

Example applyTemplate_example :
  applyTemplate demo_templates (js "pay('US$')") "staking"
  = Ok (js "pay('US /* {{GENERATED_CODE}} */) /* {{GENERATED_CODE}} */")
  /\ applyTemplate demo_templates (js "code") "constructor"
     = Thrown (ERR_NULL_PROPERTY "replace").
Proof. split; vm_compute; reflexivity. Qed.

(** ** The cache and the average on readings *)

(** Cache entries for readings, as [processSensorData] writes them for
    [demo_iot]. *)
Definition demo_entry (data : Reading) : SensorEntry :=
  entry_of demo_iot 1700000000000 data.

(** The readings 60, 0 and 10 of [energyPrice]: the average is 35, that of
    60 and 10. *)
Lemma calculateAverage_values_witness :
  calculateAverage
    ([demo_entry reading_energyPrice_60]
     ++ demo_entry {[ "energyPrice" := 0%float ]}
     :: [demo_entry reading_energyPrice_10]) "energyPrice"
  = calculateAverage
      ([demo_entry reading_energyPrice_60]
       ++ [demo_entry reading_energyPrice_10]) "energyPrice"
  /\ calculateAverage
       [demo_entry reading_energyPrice_60; demo_entry reading_energyPrice_10]
       "energyPrice"
     = (foldl PrimFloat.add 60 [10%float] / float_of_nat 2)%float
  /\ calculateAverage
       ([demo_entry reading_energyPrice_60]
        ++ demo_entry reading_energyPrice_10 :: []) "constructor"
     = nan.
Proof.
  split; [|split].
  - apply (proj1 (calculateAverage_values "energyPrice")
             [demo_entry reading_energyPrice_60]
             (demo_entry {[ "energyPrice" := 0%float ]})
             [demo_entry reading_energyPrice_10]).
    reflexivity.
  - apply (proj1 (proj2 (calculateAverage_values "energyPrice"))
             [demo_entry reading_energyPrice_60;
              demo_entry reading_energyPrice_10] 60%float [10%float]).
    repeat constructor.
  - apply (proj1 (proj2 (proj2 (calculateAverage_values "constructor")))
             [demo_entry reading_energyPrice_60]
             (demo_entry reading_energyPrice_10) []); reflexivity.
Defined.

Example calculateAverage_example :
  calculateAverage
    [demo_entry reading_energyPrice_60;
     demo_entry {[ "energyPrice" := 0%float ]};
     demo_entry reading_energy_price_60;
     demo_entry reading_energyPrice_10] "energyPrice" = 35%float
  /\ calculateAverage [] "energyPrice" = 0%float
  /\ PrimFloat.is_nan
       (calculateAverage [demo_entry reading_energyPrice_60] "toString")
     = true.
Proof. repeat split; vm_compute; reflexivity. Qed.

Lemma getAggregatedData_counts_topics_witness :
  let '(_, this', _) :=
    run (processSensorData 1700000000000 1700000000000 "pi/sensors/energy"
           reading_energyPrice_60)
      (services [] [Rejected storage_down]) demo_iot in
  sensorCount (getAggregatedData [] this')
  = S (sensorCount (getAggregatedData [] demo_iot))
  /\ raw <$> latestData (getAggregatedData [] this') !! "pi/sensors/energy"
     = Some reading_energyPrice_60.
Proof.
  apply (getAggregatedData_counts_topics
           1700000000000 1700000000000 "pi/sensors/energy"
           reading_energyPrice_60 (services [] [Rejected storage_down])
           demo_iot [] []).
  discriminate.
Defined.

Lemma processSensorData_caches_reading_witness :
  let '(_, this', _) :=
    run (processSensorData 1700000000000 1700000000000 "pi/sensors/energy"
           reading_energyPrice_60)
      (services [] [Rejected storage_down]) demo_iot in
  quantumDecrypt (iot_quantumKey this')
    (encrypted (entry_of demo_iot 1700000000000 reading_energyPrice_60))
  = Ok (JSON_stringify (reading_value reading_energyPrice_60)).
Proof.
  pose proof (processSensorData_caches_reading
                1700000000000 1700000000000 "pi/sensors/energy"
                reading_energyPrice_60
                (services [] [Rejected storage_down]) demo_iot) as W.
  destruct (run _ _ demo_iot) as [[w' this'] outcome].
  destruct W as (_ & _ & _ & W); [discriminate|]. apply W. reflexivity.
Defined.

(* ================================================================== *)
(** * Services that never answer *)
(* ================================================================== *)

(** Whether a call of the hub awaits a remote service: a load does, a
    prediction or an oracle query when no model is loaded, a fetch when a
    sensor is asked for, and a training contribution unless it is
    [undefined]. *)
Definition awaits_service (c : HubCall) (this : GodHeadNexus) : bool :=
  match c with
  | call_loadModel => true
  | call_predictAdjustment _ | call_queryContractOracle =>
      bool_decide (model this = None)
  | call_fetchIoTSensors sensorIds =>
      match sensorIds with
      | [] => false
      | _ :: _ => true
      end
  | call_triggerFederatedTraining contributionData =>
      match contributionData with
      | JsUndefined => false
      | _ => true
      end
  end.

(** Remote services that answer no call. *)
Definition silent (w : World) : Prop :=
  loader w = [] /\ sensors_api w = [] /\ storage w = [].

Section SilentServices.
Context `{NodeRuntime}.

(** X27. No call of the hub has a timeout: when the remote service that a
    call awaits never answers, the call stays pending for ever, having sent
    its one request and changed nothing in the hub: nothing is printed, no
    event is emitted, and no error is raised. The calls that await no
    service (a prediction or an oracle query on a loaded model, a fetch of
    no sensor, a contribution that is [undefined]) end at once, with no
    request. *)
Theorem hub_call_waits_for_ever c w this :
  silent w ->
  let '(w', this', outcome) := run (hub_task c) w this in
  (awaits_service c this = true ->
   outcome = Pending
   /\ this' = this
   /\ exists request, received w' = received w ++ [request])
  /\ (awaits_service c this = false -> outcome <> Pending /\ w' = w).
Proof.
  intros (Hl & Hs & Hst).
  assert (forall marketData,
            let '(w', this', outcome) :=
              run (predictAdjustment marketData) w this in
            (model this = None ->
             outcome = Pending /\ this' = this
             /\ exists request, received w' = received w ++ [request])
            /\ (model this <> None -> outcome <> Pending /\ w' = w))
    as Hpredict.
  { intros marketData. destruct (model this) as [m|] eqn:Hm.
    - rewrite (run_predictAdjustment_loaded _ _ _ m Hm).
      destruct (predict m marketData); by split.
    - unfold predictAdjustment. rewrite run_bind. cbn [run get]. rewrite Hm.
      rewrite run_bind, run_loadModel. unfold serve. cbn [next_answer].
      rewrite Hl. cbn [head]. split; [|done]. intros _.
      split; [done|]. split; [done|]. by eexists. }
  destruct c as [|marketData|sensorIds|contributionData|];
    cbn [hub_task awaits_service].
  - rewrite run_loadModel. unfold serve. cbn [next_answer]. rewrite Hl.
    cbn [head]. split; [|done]. intros _.
    split; [done|]. split; [done|]. by eexists.
  - rewrite run_bind. specialize (Hpredict marketData).
    destruct (run (predictAdjustment marketData) w this)
      as [[w' this'] [a|e|]]; cbn [run mret task_ret];
      destruct Hpredict as [Hnone Hsome];
      (split;
       [intros Hm%bool_decide_eq_true;
        destruct (Hnone Hm) as (Ho & Ht & Hr);
        first [discriminate Ho|split; [done|split; [done|exact Hr]]]
       |intros Hm%bool_decide_eq_false;
        destruct (Hsome Hm) as [Ho ->]; first [by destruct Ho|by split]]).
  - rewrite run_bind. unfold fetchIoTSensors.
    rewrite run_try_catch, run_bind. destruct sensorIds as [|id ids].
    + cbn [run mret task_ret]. rewrite run_bind. cbn [run modify].
      rewrite run_bind. cbn [run modify]. rewrite run_bind.
      cbn [run modify mret task_ret]. by split.
    + unfold await at 1. cbn [run]. unfold serve. cbn [next_answer].
      rewrite Hs. cbn [head]. split; [|done]. intros _.
      split; [done|]. split; [done|]. by eexists.
  - rewrite run_bind. destruct contributionData;
      [by split|rewrite run_triggerFederatedTraining by done..];
      unfold serve; cbn [next_answer]; rewrite Hst; cbn [head];
      (split; [|done]); intros _;
      (split; [done|]); (split; [done|]); by eexists.
  - rewrite run_bind. unfold queryContractOracle. rewrite run_bind.
    specialize (Hpredict [314159%float; 1000%float]).
    destruct (run (predictAdjustment _) w this)
      as [[w' this'] [a|e|]]; cbn [run mret task_ret modify];
      destruct Hpredict as [Hnone Hsome];
      (split;
       [intros Hm%bool_decide_eq_true;
        destruct (Hnone Hm) as (Ho & Ht & Hr);
        first [discriminate Ho|split; [done|split; [done|exact Hr]]]
       |intros Hm%bool_decide_eq_false;
        destruct (Hsome Hm) as [Ho ->]; first [by destruct Ho|by split]]).
Qed.

(** X28. When the storage never answers the contribution of a reading whose
    [energyPrice] exceeds 50, [processSensorData] stays pending for ever:
    the peg of the reading has been published and the contribution sent,
    and the line that says that the reading was processed is never
    printed. *)
Theorem processSensorData_storage_silent
    now0 now1 topic data w this m adjustment :
  model (nexus this) = Some m ->
  predict m (features now1 data) = Ok adjustment ->
  field_gt data "energyPrice" 50 = true ->
  storage w = [] ->
  let '(w', this', outcome) :=
    run (processSensorData now0 now1 topic data) w this in
  outcome = Pending
  /\ published_pegs this' = published_pegs this ++ [newPeg adjustment]
  /\ stored w'
     = stored w ++ [quantumEncrypt (quantumKey (nexus this))
                      (JSON_stringify (contribution_of data))]
  /\ console (nexus this')
     = console (nexus this)
       ++ [console_log
             "Nexus Prediction: Adjust PI by ${adjustment} for peg $314,159"]
       ++ (if (0.01 <? PrimFloat.abs adjustment)%float
           then [console_log
                   "ALERT: Significant PI adjustment needed. Notify ecosystem."]
           else [])
       ++ [console_log
             "New dynamic PI peg: ${newPeg} influenced by IoT data:"].
Proof.
  intros Hm Hp Hgt Hs.
  pose proof (run_processSensorData now0 now1 topic data w this m adjustment
                Hm Hp) as Hrun.
  cbv zeta in Hrun. rewrite Hrun, Hgt. clear Hrun.
  rewrite quantumKey_after_pegging.
  unfold serve. cbn [next_answer remote_call]. rewrite Hs. cbn [head tail].
  split; [done|]. split; [|split].
  - unfold published_pegs. cbn [nexus set_nexus].
    rewrite emitted_after_pegging, omap_app. cbn [omap list_omap]. done.
  - unfold stored. cbn [received]. rewrite omap_app. by cbn [omap list_omap].
  - cbn [nexus set_nexus]. unfold after_pegging, after_prediction.
    cbn [emit]. unfold handleMarketAlert.
    destruct (_ <? _)%float; cbn [console print record_event];
      by rewrite <- ?app_assoc.
Qed.

End SilentServices.

Lemma hub_call_waits_for_ever_witness :
  let '(w', this', outcome) :=
    run (hub_task (call_predictAdjustment [314159%float; 1000%float]))
      (services [] []) (new_GodHeadNexus demo_key) in
  outcome = Pending
  /\ this' = new_GodHeadNexus demo_key
  /\ exists request, received w' = received (services [] []) ++ [request].
Proof.
  apply (hub_call_waits_for_ever
           (call_predictAdjustment [314159%float; 1000%float])
           (services [] []) (new_GodHeadNexus demo_key)).
  - repeat split.
  - reflexivity.
Defined.

Example hub_call_ends_at_once :
  (run (hub_task (call_fetchIoTSensors [])) (services [] []) demo_nexus).2
  = Resolved tt
  /\ (run (hub_task (call_triggerFederatedTraining JsUndefined))
        (services [] []) demo_nexus).2
     = Failed ERR_INVALID_ARG_TYPE.
Proof. split; reflexivity. Qed.

Lemma processSensorData_storage_silent_witness :
  let '(w', this', outcome) :=
    run (processSensorData 1700000000000 1700000000000 "pi/sensors/energy"
           reading_energyPrice_60) (services [] []) demo_iot in
  outcome = Pending
  /\ published_pegs this' = published_pegs demo_iot ++ [newPeg 0.001]
  /\ stored w'
     = stored (services [] [])
       ++ [quantumEncrypt (quantumKey (nexus demo_iot))
             (JSON_stringify (contribution_of reading_energyPrice_60))]
  /\ console (nexus this')
     = console (nexus demo_iot)
       ++ [console_log
             "Nexus Prediction: Adjust PI by ${adjustment} for peg $314,159"]
       ++ (if (0.01 <? PrimFloat.abs 0.001)%float
           then [console_log
                   "ALERT: Significant PI adjustment needed. Notify ecosystem."]
           else [])
       ++ [console_log
             "New dynamic PI peg: ${newPeg} influenced by IoT data:"].
Proof.
  apply (processSensorData_storage_silent
           1700000000000 1700000000000 "pi/sensors/energy"
           reading_energyPrice_60 (services [] []) demo_iot
           demo_model 0.001%float); reflexivity.
Defined.
